(** * Bala-Mama-Meet: session and local-media state layers

    A shallow embedding of the two React providers of the meeting client:

    - [Space]       the session provider (unnamed/part_001): roster of remote
                    participants, active-speaker promotion, subscription
                    resort, screen-share slot, publish / unpublish, leave;
    - [UserMedia]   the local-media provider (context/UserMedia.tsx): device
                    acquisition, error recording, microphone level;
    - [UserMediaB]  the second copy of that provider (unnamed/part_002).

    React state is a record, a state setter is a record update, an updater
    function passed to a setter is a function on the old value.  What the
    SDK (@mux/spaces-web) and the browser answer is an argument of the
    operation that asks; what the operation asks of them is logged as a
    list of [SdkCall]s.

    The rest of the two providers (device lists, the bulk permission
    requests, the actions on the active tracks, publishing on join,
    starting and stopping a screen share) follows in [Platform],
    [UserMediaOps], [UserMediaBOps], [MediaSystem] and [SpaceOps].

    Left out: rendering, [attachScreenShare] (DOM elements) and the thin
    forwarding calls ([submitAcrScore], [publishCustomEvent],
    [setDisplayName]). *)

From Stdlib Require Import List String ZArith Bool Lia Permutation Floats.
From Stdlib Require Uint63.
Import ListNotations.

Local Open Scope string_scope.
Local Open Scope list_scope.
Local Open Scope Z_scope.

(* ------------------------------------------------------------------ *)
(** ** JavaScript array and value helpers *)

Module Js.

Section Arrays.
Context {A : Type}.

(** [Array.prototype.find]: the first element that satisfies [f], or
    [undefined]. *)
Fixpoint find (f : A -> bool) (l : list A) : option A :=
  match l with
  | [] => None
  | x :: r => if f x then Some x else find f r
  end.

Fixpoint findIndexFrom (f : A -> bool) (l : list A) (i : Z) : Z :=
  match l with
  | [] => -1
  | x :: r => if f x then i else findIndexFrom f r (i + 1)
  end.

(** [Array.prototype.findIndex]: the first index whose element satisfies
    [f], or [-1]. *)
Definition findIndex (f : A -> bool) (l : list A) : Z := findIndexFrom f l 0.

Fixpoint removeAt (n : nat) (l : list A) : list A :=
  match l, n with
  | [], _ => []
  | _ :: r, O => r
  | x :: r, S k => x :: removeAt k r
  end.

(** The start index [splice] really uses: a negative [start] counts from
    the end, and the result is clamped to [0 .. len]. *)
Definition spliceStart (start len : Z) : Z :=
  if start <? 0 then Z.max (len + start) 0 else Z.min start len.

(** [l.splice(start, 1)]: the array after the call.  When the start index
    is the length nothing is deleted. *)
Definition splice1 (start : Z) (l : list A) : list A :=
  removeAt (Z.to_nat (spliceStart start (Z.of_nat (List.length l)))) l.

(** [l.unshift(x)]: the array after the call. *)
Definition unshift (x : A) (l : list A) : list A := x :: l.

End Arrays.

(** Truthiness of a [string | undefined] value: [undefined] and the empty
    string are falsy. *)
Definition truthyString (s : option string) : bool :=
  match s with
  | None => false
  | Some s => negb (s =? "")%string
  end.

(** A thrown value, as far as this code looks at it: [e.name],
    [e.message] and [e instanceof DOMException]. *)
Record JsError : Type := {
  name : string;
  message : string;
  isDOMException : bool
}.

(** [new Error(msg)] *)
Definition newError (msg : string) : JsError :=
  {| name := "Error"; message := msg; isDOMException := false |}.

(** The [TypeError] the engine raises for [undefined.member]; its message
    text is the engine's own, the model keeps the member's name in it. *)
Definition typeErrorOnUndefined (member : string) : JsError :=
  {| name := "TypeError"; message := member; isDOMException := false |}.

(** What a call can do: return (an [async] function: resolve) or throw
    (an [async] function: reject the promise it returned). *)
Inductive Outcome (A : Type) : Type :=
| Returns (a : A)
| Throws (e : JsError).

End Js.

Arguments Js.Returns {A} a.
Arguments Js.Throws {A} e.

(* ------------------------------------------------------------------ *)
(** ** The SDK's values, as this code reads them *)

Module Sdk.

Inductive TrackSource : Type := Camera | Microphone | Screenshare.

Definition TrackSource_eqb (a b : TrackSource) : bool :=
  match a, b with
  | Camera, Camera | Microphone, Microphone | Screenshare, Screenshare => true
  | _, _ => false
  end.

Inductive TrackKind : Type := Audio | Video.

(** A track object.  [trackObj] is the object's identity; [isLocalTrack]
    answers [instanceof LocalTrack]; [hasMedia] is what [track.hasMedia()]
    answers when the handler runs. *)
Record Track : Type := {
  trackObj : nat;
  kind : TrackKind;
  source : TrackSource;
  deviceId : option string;
  hasMedia : bool;
  isLocalTrack : bool
}.

Definition isAudio (t : Track) : bool :=
  match kind t with Audio => true | Video => false end.

Definition isVideo (t : Track) : bool :=
  match kind t with Audio => false | Video => true end.

(** [t.deviceId === d] for a string [d] *)
Definition deviceIdIs (d : string) (t : Track) : bool :=
  match deviceId t with
  | Some d' => (d' =? d)%string
  | None => false
  end.

End Sdk.

Module RemoteParticipant.

(** A remote participant object: the two fields the code reads and
    writes.  [isSubscribed()] is the SDK's answer at the time of the call
    and is an argument of the handler that asks. *)
Record t : Type := {
  connectionId : string;
  displayName : string
}.

(** [p.displayName = n] *)
Definition withDisplayName (n : string) (p : t) : t :=
  {| connectionId := connectionId p; displayName := n |}.

End RemoteParticipant.

Module LocalParticipant.

(** The local participant object.  [tracks] is the SDK's list of the
    tracks this participant has published: [getTracks()]. *)
Record t : Type := {
  connectionId : string;
  displayName : string;
  tracks : list Sdk.Track
}.

Definition getTracks (lp : t) : list Sdk.Track := tracks lp.
Definition getAudioTracks (lp : t) : list Sdk.Track :=
  filter Sdk.isAudio (tracks lp).
Definition getVideoTracks (lp : t) : list Sdk.Track :=
  filter Sdk.isVideo (tracks lp).

Definition withDisplayName (n : string) (p : t) : t :=
  {| connectionId := connectionId p; displayName := n; tracks := tracks p |}.

(** The SDK's side of a [publishTracks] call that resolved: the tracks are
    now among the participant's published tracks.  (The SDK is not part of
    the repository; this is the contract the duplicate check in
    [publishMicrophone] relies on.) *)
Definition published (ts : list Sdk.Track) (p : t) : t :=
  {| connectionId := connectionId p; displayName := displayName p;
     tracks := tracks p ++ ts |}.

End LocalParticipant.

(** [LocalParticipant | RemoteParticipant]; [instanceof] is the
    constructor. *)
Inductive Participant : Type :=
| Local (p : LocalParticipant.t)
| Remote (p : RemoteParticipant.t).

Definition participantConnectionId (p : Participant) : string :=
  match p with
  | Local l => LocalParticipant.connectionId l
  | Remote r => RemoteParticipant.connectionId r
  end.

Definition participantDisplayName (p : Participant) : string :=
  match p with
  | Local l => LocalParticipant.displayName l
  | Remote r => RemoteParticipant.displayName r
  end.

(** An entry of an active-speaker batch. *)
Record ActiveSpeaker : Type := { participant : Participant }.

(** The options object handed to [getUserMedia]. *)
Inductive MediaOption : Type :=
| Off                                   (* false *)
| Unconstrained                         (* {} *)
| Defaults                              (* { constraints: defaults } *)
| Exact (d : string) (defaults : bool). (* { constraints: { deviceId: { exact: d }, ...defaults? } } *)

Record CreateLocalMediaOptions : Type := {
  audio : MediaOption;
  video : MediaOption
}.

(** What the code asks of the SDK, in the order it asks. *)
Inductive SdkCall : Type :=
| GetUserMedia (o : CreateLocalMediaOptions)
| PublishTracks (ts : list (option Sdk.Track))
| UnpublishTracks (ts : list Sdk.Track)
| Mute (t : Sdk.Track)
| RemoveAllListeners
| Leave.

(* ------------------------------------------------------------------ *)
(** ** The user-preferences context (./User), as the two providers use it *)

Module User.

Record State : Type := {
  cameraDeviceId : string;
  microphoneDeviceId : string;
  userWantsMicMuted : bool;
  cameraOff : bool
}.

Definition setMicrophoneDeviceId (d : string) (u : State) : State :=
  {| cameraDeviceId := cameraDeviceId u; microphoneDeviceId := d;
     userWantsMicMuted := userWantsMicMuted u; cameraOff := cameraOff u |}.

Definition setCameraDeviceId (d : string) (u : State) : State :=
  {| cameraDeviceId := d; microphoneDeviceId := microphoneDeviceId u;
     userWantsMicMuted := userWantsMicMuted u; cameraOff := cameraOff u |}.

End User.

(* ------------------------------------------------------------------ *)
(** ** Local-media state shared by both copies of the provider *)

Module Media.

(** The analyser [setupLocalMicrophoneAnalyser] builds over a track. *)
Record AnalyserNode : Type := {
  fftSize : nat;
  analysed : Sdk.Track
}.

Record State : Type := {
  activeMicrophone : option Sdk.Track;
  activeCamera : option Sdk.Track;
  localAudioAnalyser : option AnalyserNode;
  userMediaError : option string
}.

Definition initial : State :=
  {| activeMicrophone := None; activeCamera := None;
     localAudioAnalyser := None; userMediaError := None |}.

Definition setActiveMicrophone (t : option Sdk.Track) (m : State) : State :=
  {| activeMicrophone := t; activeCamera := activeCamera m;
     localAudioAnalyser := localAudioAnalyser m;
     userMediaError := userMediaError m |}.

Definition setActiveCamera (t : option Sdk.Track) (m : State) : State :=
  {| activeMicrophone := activeMicrophone m; activeCamera := t;
     localAudioAnalyser := localAudioAnalyser m;
     userMediaError := userMediaError m |}.

Definition setLocalAudioAnalyser (a : option AnalyserNode) (m : State) : State :=
  {| activeMicrophone := activeMicrophone m; activeCamera := activeCamera m;
     localAudioAnalyser := a; userMediaError := userMediaError m |}.

Definition setUserMediaError (e : option string) (m : State) : State :=
  {| activeMicrophone := activeMicrophone m; activeCamera := activeCamera m;
     localAudioAnalyser := localAudioAnalyser m; userMediaError := e |}.

(** [setupLocalMicrophoneAnalyser]: an analyser with [fftSize = 2048] over
    the track becomes the local audio analyser. *)
Definition setupLocalMicrophoneAnalyser (track : Sdk.Track) (m : State) : State :=
  setLocalAudioAnalyser (Some {| fftSize := 2048%nat; analysed := track |}) m.

(** Both contexts a media operation reads and writes, and its log. *)
Record Ctx : Type := {
  user : User.State;
  media : State;
  calls : list SdkCall
}.

Definition onUser (f : User.State -> User.State) (c : Ctx) : Ctx :=
  {| user := f (user c); media := media c; calls := calls c |}.

Definition onMedia (f : State -> State) (c : Ctx) : Ctx :=
  {| user := user c; media := f (media c); calls := calls c |}.

Definition call (k : SdkCall) (c : Ctx) : Ctx :=
  {| user := user c; media := media c; calls := calls c ++ [k] |}.

Definition when (b : bool) (f : Ctx -> Ctx) (c : Ctx) : Ctx :=
  if b then f c else c.

(** The body of [tracks.forEach] in [getMicrophone].  [muted] is the
    [userWantsMicMuted] the callback closed over. *)
Definition eachMicrophoneTrack (muted : bool) (c : Ctx) (track : Sdk.Track) : Ctx :=
  match Sdk.source track with
  | Sdk.Microphone =>
      let c := onMedia (setActiveMicrophone (Some track)) c in
      let c := onMedia (setupLocalMicrophoneAnalyser track) c in
      let c :=
        match Sdk.deviceId track with
        | Some d =>
            when (Js.truthyString (Some d)) (onUser (User.setMicrophoneDeviceId d)) c
        | None => c
        end in
      when muted (call (Mute track)) c
  | _ => c
  end.

(** The body of [tracks.forEach] in [getCamera]. *)
Definition eachCameraTrack (c : Ctx) (track : Sdk.Track) : Ctx :=
  match Sdk.source track with
  | Sdk.Camera =>
      let c := onMedia (setActiveCamera (Some track)) c in
      match Sdk.deviceId track with
      | Some d =>
          when (Js.truthyString (Some d)) (onUser (User.setCameraDeviceId d)) c
      | None => c
      end
  | _ => c
  end.

(** [options] of [getMicrophone]: defaults for audio, no video; an exact
    device when [deviceId !== ""]. *)
Definition microphoneOptions (deviceId : string) : CreateLocalMediaOptions :=
  {| audio := if (deviceId =? "")%string then Defaults else Exact deviceId true;
     video := Off |}.

(** [options] of [getCamera]. *)
Definition cameraOptions (deviceId : string) : CreateLocalMediaOptions :=
  {| audio := Off;
     video := if (deviceId =? "")%string then Unconstrained else Exact deviceId false |}.

(** The shape shared by the four acquisition functions: ask, record a
    failure through [onError], run [each] over the tracks, return
    [tracks[0]].  [answer] is what [getUserMedia] does. *)
Definition acquire
    (options : CreateLocalMediaOptions)
    (onError : Js.JsError -> State -> State)
    (each : Ctx -> Sdk.Track -> Ctx)
    (c : Ctx) (answer : Js.Outcome (list Sdk.Track))
  : Js.Outcome (option Sdk.Track) * Ctx :=
  let c := call (GetUserMedia options) c in
  let '(tracks, c) :=
    match answer with
    | Js.Returns ts => (ts, c)
    | Js.Throws e => ([], onMedia (onError e) c)
    end in
  let c := fold_left each tracks c in
  (Js.Returns (hd_error tracks), c).

End Media.

(* ------------------------------------------------------------------ *)
(** ** context/UserMedia.tsx *)

Module UserMedia.

Definition includes (l : list string) (s : string) : bool :=
  existsb (String.eqb s) l.

(** The first test of the [catch] block. *)
Definition isNotAllowed (e : Js.JsError) : bool :=
  includes ["NotAllowedError"; "PermissionDeniedError"] (Js.name e)
  || Js.isDOMException e.

(** The second test of the [catch] block. *)
Definition isOverconstrained (e : Js.JsError) : bool :=
  includes ["OverconstrainedError"; "ConstraintNotSatisfiedError"] (Js.name e).

(** The [catch] block of [getMicrophone] and [getCamera]. *)
Definition catchAcquisition (e : Js.JsError) (m : Media.State) : Media.State :=
  if isNotAllowed e then Media.setUserMediaError (Some "NotAllowedError") m
  else if isOverconstrained e then Media.setUserMediaError (Some "OverconstrainedError") m
  else Media.setUserMediaError (Some (Js.name e)) m.

Definition getMicrophone (c : Media.Ctx) (deviceId : string)
    (answer : Js.Outcome (list Sdk.Track))
  : Js.Outcome (option Sdk.Track) * Media.Ctx :=
  Media.acquire (Media.microphoneOptions deviceId) catchAcquisition
    (Media.eachMicrophoneTrack (User.userWantsMicMuted (Media.user c)))
    c answer.

Definition getCamera (c : Media.Ctx) (deviceId : string)
    (answer : Js.Outcome (list Sdk.Track))
  : Js.Outcome (option Sdk.Track) * Media.Ctx :=
  Media.acquire (Media.cameraOptions deviceId) catchAcquisition
    Media.eachCameraTrack c answer.

End UserMedia.

(* ------------------------------------------------------------------ *)
(** ** unnamed/part_002: the second copy of the provider *)

Module UserMediaB.

(** The [catch] block: [setUserMediaError(e.name)]. *)
Definition catchAcquisition (e : Js.JsError) (m : Media.State) : Media.State :=
  Media.setUserMediaError (Some (Js.name e)) m.

Definition getMicrophone (c : Media.Ctx) (deviceId : string)
    (answer : Js.Outcome (list Sdk.Track))
  : Js.Outcome (option Sdk.Track) * Media.Ctx :=
  Media.acquire (Media.microphoneOptions deviceId) catchAcquisition
    (Media.eachMicrophoneTrack (User.userWantsMicMuted (Media.user c)))
    c answer.

Definition getCamera (c : Media.Ctx) (deviceId : string)
    (answer : Js.Outcome (list Sdk.Track))
  : Js.Outcome (option Sdk.Track) * Media.Ctx :=
  Media.acquire (Media.cameraOptions deviceId) catchAcquisition
    Media.eachCameraTrack c answer.

End UserMediaB.

(* ------------------------------------------------------------------ *)
(** ** getActiveMicrophoneLevel (both copies)

    Samples and levels are binary64 numbers.  [Math.log10] and the [**]
    operator are implementation-approximated in JavaScript: they are
    parameters here. *)

Module MicrophoneLevel.

Record Level : Type := { avgDb : float; peakDb : float }.

(** [buffer.length] as a number *)
Definition lengthNumber (buffer : list float) : float :=
  PrimFloat.of_uint63 (Uint63.of_Z (Z.of_nat (List.length buffer))).

(** [Math.max(a, b)]: NaN if either is NaN, and +0 is larger than -0. *)
Definition max2 (a b : float) : float :=
  if PrimFloat.is_nan a || PrimFloat.is_nan b then PrimFloat.nan
  else if PrimFloat.ltb a b then b
  else if PrimFloat.ltb b a then a
  else match PrimFloat.classify a with FloatClass.NZero => b | _ => a end.

(** [Math.max(...xs)]; [-Infinity] for no argument. *)
Definition mathMax (xs : list float) : float :=
  fold_left max2 xs PrimFloat.neg_infinity.

(** The number a [Float32Array] element holds after [x] is stored in it:
    [x] rounded to the nearest binary32 value, ties to even, overflowing
    to an infinity ([Math.fround]). *)
Definition fround (x : float) : float :=
  match Prim2SF x with
  | S754_finite s m e => SF2Prim (binary_round 24 128 s m e)
  | _ => x
  end.

Section WithMath.

Variable log10 : float -> float.
Variable pow : float -> float -> float.
(** What [getFloatTimeDomainData] leaves in a fresh buffer of the given
    length. *)
Variable getFloatTimeDomainData : Media.AnalyserNode -> nat -> list float.

(** One turn of the [for] loop of context/UserMedia.tsx on [(sum, peak)]. *)
Definition loopStep (acc : float * float) (sample : float) : float * float :=
  let sq := pow sample 2%float in
  (PrimFloat.add (fst acc) sq,
   if PrimFloat.ltb (snd acc) sq then sq else snd acc).

(** context/UserMedia.tsx *)
Definition getActiveMicrophoneLevel (m : Media.State) : option Level :=
  match Media.localAudioAnalyser m with
  | None => None
  | Some analyser =>
      let buffer := getFloatTimeDomainData analyser (Media.fftSize analyser) in
      let '(sum, peak) := fold_left loopStep buffer (0%float, 0%float) in
      Some {| avgDb := PrimFloat.mul 10 (log10 (PrimFloat.div sum (lengthNumber buffer)));
              peakDb := PrimFloat.mul 10 (log10 peak) |}
  end.

(** unnamed/part_002.  [buffer.map] on a [Float32Array] gives a
    [Float32Array]: each square under the maximum is rounded to binary32.
    The accumulator of [reduce] is a plain number. *)
Definition getActiveMicrophoneLevelB (m : Media.State) : option Level :=
  match Media.localAudioAnalyser m with
  | None => None
  | Some analyser =>
      let buffer := getFloatTimeDomainData analyser (Media.fftSize analyser) in
      let sum := fold_left (fun acc val => PrimFloat.add acc (pow val 2%float)) buffer 0%float in
      let peak := mathMax (map (fun v => fround (pow v 2%float)) buffer) in
      Some {| avgDb := PrimFloat.mul 10 (log10 (PrimFloat.div sum (lengthNumber buffer)));
              peakDb := PrimFloat.mul 10 (log10 peak) |}
  end.


End WithMath.

(** [x ** 2] when the engine computes it as the correctly rounded product
    (the code uses no other exponent). *)
Definition powExact (x _ : float) : float := PrimFloat.mul x x.

(** A [log10] for runs of the function: the identity, which tells any two
    different arguments apart.  The engine's [Math.log10] is left open;
    what a run shows is the pair of numbers handed to it. *)
Definition increasing (x : float) : float := x.

(** An analyser that hands out the same sample at every position. *)
Definition steady (sample : float) (_ : Media.AnalyserNode) (n : nat) : list float :=
  repeat sample n.

End MicrophoneLevel.

(* ------------------------------------------------------------------ *)
(** ** unnamed/part_001: the session provider *)

Module Space.

(** The [Space] object: identity and its [broadcasting] property. *)
Record Handle : Type := {
  spaceObj : nat;
  broadcasting : bool
}.

Record State : Type := {
  space : option Handle;
  spaceEndsAt : option Z;
  localParticipant : option LocalParticipant.t;
  remoteParticipants : list RemoteParticipant.t;
  isJoined : bool;
  joinError : option string;
  isBroadcasting : bool;
  screenShareTrack : option Sdk.Track;
  screenShareError : option string;
  participantScreenSharing : option Participant
}.

(** The [useState] initial values. *)
Definition initial : State :=
  {| space := None; spaceEndsAt := None; localParticipant := None;
     remoteParticipants := []; isJoined := false; joinError := None;
     isBroadcasting := false; screenShareTrack := None;
     screenShareError := None; participantScreenSharing := None |}.

Definition setSpace (v : option Handle) (s : State) : State :=
  {| space := v; spaceEndsAt := spaceEndsAt s;
     localParticipant := localParticipant s;
     remoteParticipants := remoteParticipants s; isJoined := isJoined s;
     joinError := joinError s; isBroadcasting := isBroadcasting s;
     screenShareTrack := screenShareTrack s;
     screenShareError := screenShareError s;
     participantScreenSharing := participantScreenSharing s |}.

Definition setSpaceEndsAt (v : option Z) (s : State) : State :=
  {| space := space s; spaceEndsAt := v;
     localParticipant := localParticipant s;
     remoteParticipants := remoteParticipants s; isJoined := isJoined s;
     joinError := joinError s; isBroadcasting := isBroadcasting s;
     screenShareTrack := screenShareTrack s;
     screenShareError := screenShareError s;
     participantScreenSharing := participantScreenSharing s |}.

(** [setLocalParticipant] with an updater function *)
Definition setLocalParticipant
    (f : option LocalParticipant.t -> option LocalParticipant.t) (s : State) : State :=
  {| space := space s; spaceEndsAt := spaceEndsAt s;
     localParticipant := f (localParticipant s);
     remoteParticipants := remoteParticipants s; isJoined := isJoined s;
     joinError := joinError s; isBroadcasting := isBroadcasting s;
     screenShareTrack := screenShareTrack s;
     screenShareError := screenShareError s;
     participantScreenSharing := participantScreenSharing s |}.

(** [setRemoteParticipants] with an updater function *)
Definition setRemoteParticipants
    (f : list RemoteParticipant.t -> list RemoteParticipant.t) (s : State) : State :=
  {| space := space s; spaceEndsAt := spaceEndsAt s;
     localParticipant := localParticipant s;
     remoteParticipants := f (remoteParticipants s); isJoined := isJoined s;
     joinError := joinError s; isBroadcasting := isBroadcasting s;
     screenShareTrack := screenShareTrack s;
     screenShareError := screenShareError s;
     participantScreenSharing := participantScreenSharing s |}.

Definition setIsJoined (v : bool) (s : State) : State :=
  {| space := space s; spaceEndsAt := spaceEndsAt s;
     localParticipant := localParticipant s;
     remoteParticipants := remoteParticipants s; isJoined := v;
     joinError := joinError s; isBroadcasting := isBroadcasting s;
     screenShareTrack := screenShareTrack s;
     screenShareError := screenShareError s;
     participantScreenSharing := participantScreenSharing s |}.

Definition setJoinError (v : option string) (s : State) : State :=
  {| space := space s; spaceEndsAt := spaceEndsAt s;
     localParticipant := localParticipant s;
     remoteParticipants := remoteParticipants s; isJoined := isJoined s;
     joinError := v; isBroadcasting := isBroadcasting s;
     screenShareTrack := screenShareTrack s;
     screenShareError := screenShareError s;
     participantScreenSharing := participantScreenSharing s |}.

Definition setIsBroadcasting (v : bool) (s : State) : State :=
  {| space := space s; spaceEndsAt := spaceEndsAt s;
     localParticipant := localParticipant s;
     remoteParticipants := remoteParticipants s; isJoined := isJoined s;
     joinError := joinError s; isBroadcasting := v;
     screenShareTrack := screenShareTrack s;
     screenShareError := screenShareError s;
     participantScreenSharing := participantScreenSharing s |}.

Definition setScreenShareTrack (v : option Sdk.Track) (s : State) : State :=
  {| space := space s; spaceEndsAt := spaceEndsAt s;
     localParticipant := localParticipant s;
     remoteParticipants := remoteParticipants s; isJoined := isJoined s;
     joinError := joinError s; isBroadcasting := isBroadcasting s;
     screenShareTrack := v;
     screenShareError := screenShareError s;
     participantScreenSharing := participantScreenSharing s |}.

Definition setScreenShareError (v : option string) (s : State) : State :=
  {| space := space s; spaceEndsAt := spaceEndsAt s;
     localParticipant := localParticipant s;
     remoteParticipants := remoteParticipants s; isJoined := isJoined s;
     joinError := joinError s; isBroadcasting := isBroadcasting s;
     screenShareTrack := screenShareTrack s;
     screenShareError := v;
     participantScreenSharing := participantScreenSharing s |}.

Definition setParticipantScreenSharing (v : option Participant) (s : State) : State :=
  {| space := space s; spaceEndsAt := spaceEndsAt s;
     localParticipant := localParticipant s;
     remoteParticipants := remoteParticipants s; isJoined := isJoined s;
     joinError := joinError s; isBroadcasting := isBroadcasting s;
     screenShareTrack := screenShareTrack s;
     screenShareError := screenShareError s;
     participantScreenSharing := v |}.

(** *** Memoized values *)

Definition isScreenShareActive (s : State) : bool :=
  match screenShareTrack s with Some _ => true | None => false end.

Definition isLocalScreenShare (s : State) : bool :=
  match participantScreenSharing s with Some (Local _) => true | _ => false end.

Definition screenShareParticipantConnectionId (s : State) : option string :=
  option_map participantConnectionId (participantScreenSharing s).

Definition participantCount (s : State) : nat :=
  ((match localParticipant s with Some _ => 1 | None => 0 end)
   + List.length (remoteParticipants s))%nat.

Definition connectionIds (s : State) : list string :=
  (match localParticipant s with
   | Some l => [LocalParticipant.connectionId l]
   | None => []
   end) ++ map RemoteParticipant.connectionId (remoteParticipants s).

(** [p.connectionId === q.connectionId] *)
Definition sameConnection (q p : RemoteParticipant.t) : bool :=
  (RemoteParticipant.connectionId p =? RemoteParticipant.connectionId q)%string.

(** *** Roster updaters: the functions handed to [setRemoteParticipants] *)

Section Roster.

(** [MAX_PARTICIPANTS_PER_PAGE] of lib/constants *)
Variable MAX_PARTICIPANTS_PER_PAGE : Z.

Definition joined (newParticipant : RemoteParticipant.t)
    (old : list RemoteParticipant.t) : list RemoteParticipant.t :=
  match Js.find (sameConnection newParticipant) old with
  | Some _ => old
  | None => old ++ [newParticipant]
  end.

Definition departed (leaving : RemoteParticipant.t)
    (old : list RemoteParticipant.t) : list RemoteParticipant.t :=
  filter (fun p => negb (sameConnection leaving p)) old.

(** The body of [changes.forEach] in [handleActiveSpeakerChanged]. *)
Definition promote (updated : list RemoteParticipant.t)
    (activeSpeaker : ActiveSpeaker) : list RemoteParticipant.t :=
  match participant activeSpeaker with
  | Remote speaker =>
      let idx := Js.findIndex (sameConnection speaker) updated in
      if idx >=? MAX_PARTICIPANTS_PER_PAGE - 1
      then Js.unshift speaker (Js.splice1 idx updated)
      else updated
  | Local _ => updated
  end.

Definition activeSpeakerChanged (changes : list ActiveSpeaker)
    (old : list RemoteParticipant.t) : list RemoteParticipant.t :=
  fold_left promote changes old.

(** [old.map(...)] of [reorderRemoteParticipantsBySubscription] *)
Definition replaceChanged (participantWhoChanged : RemoteParticipant.t)
    (old : list RemoteParticipant.t) : list RemoteParticipant.t :=
  map (fun p => if sameConnection participantWhoChanged p
                then participantWhoChanged else p) old.

(** [isSubscribed] is what [p.isSubscribed()] answers when the updater
    runs. *)
Definition reorderBySubscription (isSubscribed : RemoteParticipant.t -> bool)
    (participantWhoChanged : RemoteParticipant.t)
    (old : list RemoteParticipant.t) : list RemoteParticipant.t :=
  let updated := replaceChanged participantWhoChanged old in
  filter isSubscribed updated
  ++ filter (fun p => negb (isSubscribed p)) updated.

(** [found = old.find(f); if (found) found.displayName = ...; [...old]]:
    the first match is written in place. *)
Fixpoint writeFirst {A : Type} (f : A -> bool) (g : A -> A) (l : list A) : list A :=
  match l with
  | [] => []
  | x :: r => if f x then g x :: r else x :: writeFirst f g r
  end.

Definition displayNameChanged (updated : RemoteParticipant.t)
    (old : list RemoteParticipant.t) : list RemoteParticipant.t :=
  writeFirst (sameConnection updated)
    (RemoteParticipant.withDisplayName (RemoteParticipant.displayName updated)) old.

(** *** Event handlers *)

Definition handleBroadcastStateChange (broadcastState : bool) : State -> State :=
  setIsBroadcasting broadcastState.

Definition handleParticipantJoined (newParticipant : RemoteParticipant.t) : State -> State :=
  setRemoteParticipants (joined newParticipant).

Definition handleParticipantLeft (leaving : RemoteParticipant.t) : State -> State :=
  setRemoteParticipants (departed leaving).

Definition handleActiveSpeakerChanged (changes : list ActiveSpeaker) : State -> State :=
  setRemoteParticipants (activeSpeakerChanged changes).

Definition setupScreenShare (p : Participant) (track : Sdk.Track) (s : State) : State :=
  setParticipantScreenSharing (Some p) (setScreenShareTrack (Some track) s).

Definition tearDownScreenShare (s : State) : State :=
  setParticipantScreenSharing None (setScreenShareTrack None s).

Definition reorderRemoteParticipantsBySubscription
    (isSubscribed : RemoteParticipant.t -> bool)
    (participantWhoChanged : RemoteParticipant.t) : State -> State :=
  setRemoteParticipants (reorderBySubscription isSubscribed participantWhoChanged).

(** [track.source === TrackSource.Screenshare] *)
Definition isScreenshare (track : Sdk.Track) : bool :=
  Sdk.TrackSource_eqb (Sdk.source track) Sdk.Screenshare.

Definition handleParticipantTrackPublished (p : Participant) (track : Sdk.Track)
    (s : State) : State :=
  if isScreenshare track && Sdk.hasMedia track then setupScreenShare p track s else s.

Definition handleParticipantTrackSubscribed
    (isSubscribed : RemoteParticipant.t -> bool)
    (p : Participant) (track : Sdk.Track) (s : State) : State :=
  let s :=
    match p with
    | Remote r => reorderRemoteParticipantsBySubscription isSubscribed r s
    | Local _ => s
    end in
  if isScreenshare track && Sdk.hasMedia track then setupScreenShare p track s else s.

Definition handleParticipantTrackUnpublished (_participant : Participant)
    (track : Sdk.Track) (s : State) : State :=
  if isScreenshare track then tearDownScreenShare s else s.

Definition handleParticipantTrackUnsubscribed
    (isSubscribed : RemoteParticipant.t -> bool)
    (p : Participant) (track : Sdk.Track) (s : State) : State :=
  let s :=
    match p with
    | Remote r => reorderRemoteParticipantsBySubscription isSubscribed r s
    | Local _ => s
    end in
  if isScreenshare track then tearDownScreenShare s else s.

Definition handleParticipantDisplayNameChanged (updated : Participant)
    (s : State) : State :=
  match updated with
  | Remote r => setRemoteParticipants (displayNameChanged r) s
  | Local l =>
      setLocalParticipant
        (option_map (LocalParticipant.withDisplayName (LocalParticipant.displayName l))) s
  end.

(** The events bound in [joinSpace], with what the SDK passes. *)
Inductive SpaceEvent : Type :=
| ParticipantJoined (p : RemoteParticipant.t)
| ParticipantLeft (p : RemoteParticipant.t)
| ActiveSpeakersChanged (changes : list ActiveSpeaker)
| BroadcastStateChanged (b : bool)
| ParticipantTrackPublished (p : Participant) (track : Sdk.Track)
| ParticipantTrackSubscribed (isSubscribed : RemoteParticipant.t -> bool)
    (p : Participant) (track : Sdk.Track)
| ParticipantTrackUnpublished (p : Participant) (track : Sdk.Track)
| ParticipantTrackUnsubscribed (isSubscribed : RemoteParticipant.t -> bool)
    (p : Participant) (track : Sdk.Track)
| ParticipantDisplayNameChanged (p : Participant).

(** [_space.on(event, handler)]: the handler each event runs. *)
Definition on (e : SpaceEvent) : State -> State :=
  match e with
  | ParticipantJoined p => handleParticipantJoined p
  | ParticipantLeft p => handleParticipantLeft p
  | ActiveSpeakersChanged changes => handleActiveSpeakerChanged changes
  | BroadcastStateChanged b => handleBroadcastStateChange b
  | ParticipantTrackPublished p t => handleParticipantTrackPublished p t
  | ParticipantTrackSubscribed sub p t => handleParticipantTrackSubscribed sub p t
  | ParticipantTrackUnpublished p t => handleParticipantTrackUnpublished p t
  | ParticipantTrackUnsubscribed sub p t => handleParticipantTrackUnsubscribed sub p t
  | ParticipantDisplayNameChanged p => handleParticipantDisplayNameChanged p
  end.

End Roster.

(** *** joinSpace, in the two steps between which events can arrive *)

(** Up to [setSpace(_space)]: [constructed] is what [new Space(jwt, opts)]
    does.  [endsAt] is [undefined] or a number; 0 is falsy. *)
Definition joinSpaceBegin (endsAt : option Z) (constructed : Js.Outcome Handle)
    (s : State) : State :=
  match constructed with
  | Js.Throws e => setJoinError (Some (Js.message e)) s
  | Js.Returns _space =>
      let s :=
        match endsAt with
        | Some n => if n =? 0 then s else setSpaceEndsAt (Some n) s
        | None => s
        end in
      setSpace (Some _space) s
  end.

(** The final [try] of [joinSpace]: [answer] is what [_space.join()]
    followed by [publishForLocalParticipant] does. *)
Definition joinSpaceSettle (_space : Handle)
    (answer : Js.Outcome LocalParticipant.t) (s : State) : State :=
  match answer with
  | Js.Returns _localParticipant =>
      setIsJoined true
        (setIsBroadcasting (broadcasting _space)
           (setLocalParticipant (fun _ => Some _localParticipant) s))
  | Js.Throws error =>
      setIsJoined false
        (setIsBroadcasting false (setJoinError (Some (Js.message error)) s))
  end.

(** *** leaveSpace *)

(** The [finally] block. *)
Definition leaveSpaceFinally (s : State) : State :=
  setSpaceEndsAt None
    (setIsJoined false
       (setLocalParticipant (fun _ => None)
          (setIsBroadcasting false
             (setRemoteParticipants (fun _ => [])
                (setJoinError None s))))).

(** The [try] block: what is called, and what is thrown if anything.
    [removeAnswer] and [leaveAnswer] are what [removeAllListeners()] and
    [leave()] do when called ([Some e]: throws [e]). *)
Definition leaveSpaceTry (s : State) (removeAnswer leaveAnswer : option Js.JsError)
  : option Js.JsError * list SdkCall :=
  match space s with
  | None => (None, [])
  | Some _ =>
      match removeAnswer with
      | Some e => (Some e, [RemoveAllListeners])
      | None => (leaveAnswer, [RemoveAllListeners; Leave])
      end
  end.

Definition leaveSpace (s : State) (removeAnswer leaveAnswer : option Js.JsError)
  : Js.Outcome unit * State * list SdkCall :=
  let '(thrown, calls) := leaveSpaceTry s removeAnswer leaveAnswer in
  let s := leaveSpaceFinally s in
  (match thrown with Some e => Js.Throws e | None => Js.Returns tt end, s, calls).

(** *** Device publishing *)

(** [getMicrophone] / [getCamera] as the media context provides them. *)
Definition Acquire : Type :=
  Media.Ctx -> string -> Js.Outcome (list Sdk.Track) ->
  Js.Outcome (option Sdk.Track) * Media.Ctx.

(** The local participant object after the SDK resolved
    [publishTracks(ts)]: the state holds that same object. *)
Definition afterPublish (ts : list (option Sdk.Track)) (s : State) : State :=
  setLocalParticipant
    (option_map (LocalParticipant.published (flat_map (fun t => match t with Some t => [t] | None => [] end) ts)))
    s.

Definition isMicrophoneOf (deviceId : string) (t : Sdk.Track) : bool :=
  Sdk.TrackSource_eqb (Sdk.source t) Sdk.Microphone && Sdk.deviceIdIs deviceId t.

Definition isCameraOf (deviceId : string) (t : Sdk.Track) : bool :=
  Sdk.TrackSource_eqb (Sdk.source t) Sdk.Camera && Sdk.deviceIdIs deviceId t.

(** [acquired] is what [getUserMedia] does inside [getMicrophone];
    [publishAnswer] is what [publishTracks] does ([Some e]: rejects). *)
Definition publishMicrophone (getMicrophone : Acquire)
    (s : State) (c : Media.Ctx) (deviceId : string)
    (acquired : Js.Outcome (list Sdk.Track)) (publishAnswer : option Js.JsError)
  : Js.Outcome unit * State * Media.Ctx :=
  match localParticipant s with
  | None =>
      (Js.Throws (Js.newError "Join a space before publishing a device."), s, c)
  | Some lp =>
      match getMicrophone c deviceId acquired with
      | (Js.Throws e, c1) => (Js.Throws e, s, c1)
      | (Js.Returns micTrack, c1) =>
          match Js.find (isMicrophoneOf deviceId) (LocalParticipant.getAudioTracks lp) with
          | Some _ =>
              (Js.Throws (Js.newError "That microphone is already published."), s, c1)
          | None =>
              let c2 := Media.call (PublishTracks [micTrack]) c1 in
              match publishAnswer with
              | Some e => (Js.Throws e, s, c2)
              | None =>
                  let s2 := afterPublish [micTrack] s in
                  if User.userWantsMicMuted (Media.user c) then
                    match micTrack with
                    | Some t => (Js.Returns tt, s2, Media.call (Mute t) c2)
                    | None => (Js.Throws (Js.typeErrorOnUndefined "mute"), s2, c2)
                    end
                  else (Js.Returns tt, s2, c2)
              end
          end
      end
  end.

Definition publishCamera (getCamera : Acquire)
    (s : State) (c : Media.Ctx) (deviceId : string)
    (acquired : Js.Outcome (list Sdk.Track)) (publishAnswer : option Js.JsError)
  : Js.Outcome unit * State * Media.Ctx :=
  match localParticipant s with
  | None =>
      (Js.Throws (Js.newError "Join a space before publishing a device."), s, c)
  | Some lp =>
      match getCamera c deviceId acquired with
      | (Js.Throws e, c1) => (Js.Throws e, s, c1)
      | (Js.Returns camTrack, c1) =>
          match Js.find (isCameraOf deviceId) (LocalParticipant.getVideoTracks lp) with
          | Some _ =>
              (Js.Throws (Js.newError "That camera is already published."), s, c1)
          | None =>
              let c2 := Media.call (PublishTracks [camTrack]) c1 in
              match publishAnswer with
              | Some e => (Js.Throws e, s, c2)
              | None => (Js.Returns tt, afterPublish [camTrack] s, c2)
              end
          end
      end
  end.

(** [unPublishDevice] is not [async]: it throws or returns.  The second
    component is what it asks of the SDK. *)
Definition unPublishDevice (s : State) (deviceId : string)
  : Js.Outcome unit * list SdkCall :=
  match localParticipant s with
  | None =>
      (Js.Throws (Js.newError "Join a space and publish a device before un-publishing."), [])
  | Some lp =>
      match Js.find (Sdk.deviceIdIs deviceId) (LocalParticipant.getTracks lp) with
      | Some published => (Js.Returns tt, [UnpublishTracks [published]])
      | None => (Js.Returns tt, [])
      end
  end.

(** *** The provider as a transition system *)

Section Steps.

Variable MAX_PARTICIPANTS_PER_PAGE : Z.

(** One thing that happens to the session state. *)
Inductive Action : Type :=
| JoinBegin (endsAt : option Z) (constructed : Js.Outcome Handle)
| JoinSettle (_space : Handle) (answer : Js.Outcome LocalParticipant.t)
| Deliver (e : SpaceEvent)
| LeaveSpace (removeAnswer leaveAnswer : option Js.JsError)
| Published (ts : list (option Sdk.Track)).

Definition step (s : State) (a : Action) : State :=
  match a with
  | JoinBegin endsAt constructed => joinSpaceBegin endsAt constructed s
  | JoinSettle sp answer => joinSpaceSettle sp answer s
  | Deliver e => on MAX_PARTICIPANTS_PER_PAGE e s
  | LeaveSpace ra la => snd (fst (leaveSpace s ra la))
  | Published ts => afterPublish ts s
  end.

Definition run (s : State) (actions : list Action) : State :=
  fold_left step actions s.

(** A state the provider can be in: reached from the initial values. *)
Definition reachable (s : State) : Prop :=
  exists actions, s = run initial actions.

End Steps.

End Space.

(* ------------------------------------------------------------------ *)
(** ** Notions the statements use *)

Abbreviation ids := (map RemoteParticipant.connectionId).

(** Connection identifiers are unique within a roster. *)
Definition uniqueIds (roster : list RemoteParticipant.t) : Prop :=
  NoDup (ids roster).

(** A stable partition, in the words of the specification: going through
    the list in order, every element that satisfies the test goes to the
    end of the first part and every other element to the end of the
    second, so each part keeps the order the elements had. *)
Inductive stablePartition {A : Type} (test : A -> bool)
  : list A -> list A -> list A -> Prop :=
| sp_nil : stablePartition test [] [] []
| sp_first x l yes no :
    test x = true -> stablePartition test l yes no ->
    stablePartition test (x :: l) (x :: yes) no
| sp_second x l yes no :
    test x = false -> stablePartition test l yes no ->
    stablePartition test (x :: l) yes (x :: no).

(** The two errors [publishMicrophone] raises itself, and the one
    [unPublishDevice] raises. *)
Definition NotJoined : Js.JsError :=
  Js.newError "Join a space before publishing a device.".

Definition AlreadyPublished : Js.JsError :=
  Js.newError "That microphone is already published.".

Definition NotJoinedOrPublished : Js.JsError :=
  Js.newError "Join a space and publish a device before un-publishing.".

(** The user declined hardware access: the two names the [catch] blocks
    list for it. *)
Definition userDeclined (e : Js.JsError) : bool :=
  UserMedia.includes ["NotAllowedError"; "PermissionDeniedError"] (Js.name e).

(** The requested constraints cannot be met: the two names the [catch]
    blocks list for it. *)
Definition constraintsUnmet (e : Js.JsError) : bool :=
  UserMedia.includes ["OverconstrainedError"; "ConstraintNotSatisfiedError"] (Js.name e).

(* ------------------------------------------------------------------ *)
(** ** Concrete values for the examples *)

Module Ex.

Definition remote (id : string) : RemoteParticipant.t :=
  {| RemoteParticipant.connectionId := id; RemoteParticipant.displayName := id |}.

Definition p1 := remote "p1".
Definition p2 := remote "p2".
Definition p3 := remote "p3".
Definition p4 := remote "p4".
Definition p5 := remote "p5".

Definition me : LocalParticipant.t :=
  {| LocalParticipant.connectionId := "me"; LocalParticipant.displayName := "me";
     LocalParticipant.tracks := [] |}.

Definition speaks (p : RemoteParticipant.t) : ActiveSpeaker :=
  {| participant := Remote p |}.

Definition theSpace : Space.Handle :=
  {| Space.spaceObj := 1; Space.broadcasting := false |}.

(** A remote screen-share track with media. *)
Definition screen : Sdk.Track :=
  {| Sdk.trackObj := 7; Sdk.kind := Sdk.Video; Sdk.source := Sdk.Screenshare;
     Sdk.deviceId := None; Sdk.hasMedia := true; Sdk.isLocalTrack := false |}.

(** The platform's default microphone: its track reports the device id
    [default]. *)
Definition defaultMic : Sdk.Track :=
  {| Sdk.trackObj := 1; Sdk.kind := Sdk.Audio; Sdk.source := Sdk.Microphone;
     Sdk.deviceId := Some "default"; Sdk.hasMedia := true; Sdk.isLocalTrack := true |}.

(** The track a second request for the default microphone returns. *)
Definition defaultMicAgain : Sdk.Track :=
  {| Sdk.trackObj := 3; Sdk.kind := Sdk.Audio; Sdk.source := Sdk.Microphone;
     Sdk.deviceId := Some "default"; Sdk.hasMedia := true; Sdk.isLocalTrack := true |}.

(** A microphone opened by its exact device id. *)
Definition usbMic : Sdk.Track :=
  {| Sdk.trackObj := 2; Sdk.kind := Sdk.Audio; Sdk.source := Sdk.Microphone;
     Sdk.deviceId := Some "usb-1"; Sdk.hasMedia := true; Sdk.isLocalTrack := true |}.

Definition user : User.State :=
  {| User.cameraDeviceId := ""; User.microphoneDeviceId := "";
     User.userWantsMicMuted := false; User.cameraOff := false |}.

Definition ctx : Media.Ctx :=
  {| Media.user := user; Media.media := Media.initial; Media.calls := [] |}.

(** Joined, no remote participant yet. *)
Definition joinedAlone : Space.State :=
  Space.run 6 Space.initial
    [Space.JoinBegin (Some 1700000000) (Js.Returns theSpace);
     Space.JoinSettle theSpace (Js.Returns me)].

(** Joined, and [p2] shares a screen. *)
Definition watching : Space.State :=
  Space.run 6 joinedAlone
    [Space.Deliver (Space.ParticipantJoined p2);
     Space.Deliver (Space.ParticipantTrackPublished (Remote p2) screen)].

(** Joined, with [p1] to [p5] in the roster, in that order. *)
Definition crowd : Space.State :=
  Space.run 6 joinedAlone
    (map (fun p => Space.Deliver (Space.ParticipantJoined p)) [p1; p2; p3; p4; p5]).

(** The SDK's [isSubscribed()] when exactly the listed connections are
    subscribed. *)
Definition subscribedTo (l : list string) (p : RemoteParticipant.t) : bool :=
  existsb (String.eqb (RemoteParticipant.connectionId p)) l.

(** A remote camera track. *)
Definition camera : Sdk.Track :=
  {| Sdk.trackObj := 4; Sdk.kind := Sdk.Video; Sdk.source := Sdk.Camera;
     Sdk.deviceId := None; Sdk.hasMedia := true; Sdk.isLocalTrack := false |}.

(** No device: the browser's [DOMException] named [NotFoundError]. *)
Definition notFound : Js.JsError :=
  {| Js.name := "NotFoundError"; Js.message := "Requested device not found";
     Js.isDOMException := true |}.

(** An [OverconstrainedError] that is not a [DOMException]. *)
Definition overconstrained : Js.JsError :=
  {| Js.name := "OverconstrainedError"; Js.message := "";
     Js.isDOMException := false |}.

(** A microphone is active: the state after [getMicrophone] resolved with
    the default microphone. *)
Definition listening : Media.State :=
  Media.media (snd (UserMedia.getMicrophone ctx "" (Js.Returns [defaultMic]))).

End Ex.

(* ------------------------------------------------------------------ *)
(** ** The rest of the local-media provider

    Device lists, the bulk permission requests and the small actions on
    the active tracks.  These also ask things of the browser, so their log
    is a list of [Effect]s, in which a call to the SDK is one case. *)

Module Platform.

(** [MediaDeviceInfo.kind] *)
Inductive MediaDeviceKind : Type := audioinput | audiooutput | videoinput.

Record MediaDeviceInfo : Type := {
  deviceKind : MediaDeviceKind;
  infoDeviceId : string;
  label : string
}.

Definition isAudioInput (d : MediaDeviceInfo) : bool :=
  match deviceKind d with audioinput => true | _ => false end.

Definition isVideoInput (d : MediaDeviceInfo) : bool :=
  match deviceKind d with videoinput => true | _ => false end.

Inductive Effect : Type :=
| Sdk (c : SdkCall)
| GetUserMediaAny                 (* getUserMedia({ audio: true, video: true }) *)
| GetUserMediaPreferred (microphoneDeviceId cameraDeviceId : string)
                                  (* deviceId given as a plain, not exact, constraint *)
| GetDisplayMedia                 (* getDisplayMedia({ video: true, audio: false }) *)
| EnumerateDevices                (* navigator.mediaDevices.enumerateDevices() *)
| StopMediaTrack (t : Sdk.Track)  (* track.track.stop() *)
| StopTrack (t : Sdk.Track)       (* track.stop() *)
| UnMute (t : Sdk.Track).         (* track.unMute() *)

(** The provider's whole state, the user context it writes, and the log. *)
Record World : Type := {
  user : User.State;
  media : Media.State;
  microphoneDevices : list MediaDeviceInfo;
  cameraDevices : list MediaDeviceInfo;
  effects : list Effect
}.

Definition initial (u : User.State) : World :=
  {| user := u; media := Media.initial; microphoneDevices := [];
     cameraDevices := []; effects := [] |}.

Definition onUser (f : User.State -> User.State) (w : World) : World :=
  {| user := f (user w); media := media w;
     microphoneDevices := microphoneDevices w; cameraDevices := cameraDevices w;
     effects := effects w |}.

Definition onMedia (f : Media.State -> Media.State) (w : World) : World :=
  {| user := user w; media := f (media w);
     microphoneDevices := microphoneDevices w; cameraDevices := cameraDevices w;
     effects := effects w |}.

Definition setDevices (mics cams : list MediaDeviceInfo) (w : World) : World :=
  {| user := user w; media := media w;
     microphoneDevices := mics; cameraDevices := cams; effects := effects w |}.

Definition effect (e : Effect) (w : World) : World :=
  {| user := user w; media := media w;
     microphoneDevices := microphoneDevices w; cameraDevices := cameraDevices w;
     effects := effects w ++ [e] |}.

(** The part of the world the acquisition functions work on, with an
    empty log of its own ... *)
Definition context (w : World) : Media.Ctx :=
  {| Media.user := user w; Media.media := media w; Media.calls := [] |}.

(** ... and the world after they ran: their calls go to the end of the
    log. *)
Definition absorb (w : World) (c : Media.Ctx) : World :=
  {| user := Media.user c; media := Media.media c;
     microphoneDevices := microphoneDevices w; cameraDevices := cameraDevices w;
     effects := effects w ++ map Sdk (Media.calls c) |}.

Definition lift (f : Media.Ctx -> Media.Ctx) (w : World) : World :=
  absorb w (f (context w)).

(** [getMicrophone] or [getCamera], run in the world. *)
Definition acquireIn
    (get : Media.Ctx -> string -> Js.Outcome (list Sdk.Track) ->
           Js.Outcome (option Sdk.Track) * Media.Ctx)
    (w : World) (deviceId : string) (answer : Js.Outcome (list Sdk.Track))
  : Js.Outcome (option Sdk.Track) * World :=
  let '(r, c) := get (context w) deviceId answer in (r, absorb w c).

(** [loadDevices].  [enumerate] is [None] when there is no
    [navigator.mediaDevices.enumerateDevices]; otherwise it is what the
    call does. *)
Definition loadDevices (enumerate : option (Js.Outcome (list MediaDeviceInfo)))
    (w : World) : Js.Outcome unit * World :=
  match enumerate with
  | None => (Js.Returns tt, w)
  | Some answer =>
      let w := effect EnumerateDevices w in
      match answer with
      | Js.Throws e => (Js.Throws e, w)
      | Js.Returns availableDevices =>
          (Js.Returns tt,
           setDevices (filter isAudioInput availableDevices)
                      (filter isVideoInput availableDevices) w)
      end
  end.

(** [options] of [requestPermissionAndStartDevices]: [None] is
    [undefined]. *)
Definition startOptions (microphoneDeviceId cameraDeviceId : option string)
  : CreateLocalMediaOptions :=
  {| audio :=
       match microphoneDeviceId with
       | None => Off
       | Some d => if (d =? "")%string then Defaults else Exact d true
       end;
     video :=
       match cameraDeviceId with
       | None => Off
       | Some d => if (d =? "")%string then Unconstrained else Exact d false
       end |}.

(** The body of [tracks.forEach] in [requestPermissionAndStartDevices]. *)
Definition eachStartedTrack (muted : bool) (c : Media.Ctx) (track : Sdk.Track) : Media.Ctx :=
  match Sdk.source track with
  | Sdk.Microphone => Media.eachMicrophoneTrack muted c track
  | Sdk.Camera => Media.eachCameraTrack c track
  | _ => c
  end.

(** The body of the first [tracks.forEach] in
    [requestPermissionAndPopulateDevices]. *)
Definition eachPopulatedTrack (w : World) (track : Sdk.Track) : World :=
  match Sdk.deviceId track with
  | Some d =>
      if Js.truthyString (Some d) then
        match Sdk.source track with
        | Sdk.Camera => onUser (User.setCameraDeviceId d) w
        | Sdk.Microphone => onUser (User.setMicrophoneDeviceId d) w
        | _ => w
        end
      else w
  | None => w
  end.

Definition stopActiveCamera (w : World) : World :=
  match Media.activeCamera (media w) with
  | Some activeCamera =>
      onMedia (Media.setActiveCamera None) (effect (StopTrack activeCamera) w)
  | None => w
  end.

Definition muteActiveMicrophone (w : World) : World :=
  match Media.activeMicrophone (media w) with
  | Some t => effect (Sdk (Mute t)) w
  | None => w
  end.

Definition unMuteActiveMicrophone (w : World) : World :=
  match Media.activeMicrophone (media w) with
  | Some t => effect (UnMute t) w
  | None => w
  end.

(** What the tracks part of [requestPermissionAndStartDevices] does once
    the tracks are known, up to and including [loadDevices]. *)
Definition startWith (muted : bool) (tracks : list Sdk.Track)
    (enumerate : option (Js.Outcome (list MediaDeviceInfo))) (w : World)
  : Js.Outcome unit * World :=
  loadDevices enumerate (lift (fun c => fold_left (eachStartedTrack muted) tracks c) w).

End Platform.

(** context/UserMedia.tsx, continued *)
Module UserMediaOps.

Import Platform.

(** [first] is what the first [getUserMedia] does; [fallback] what the
    one in the [catch] block does, if it is reached. *)
Definition requestPermissionAndStartDevices (w : World)
    (microphoneDeviceId cameraDeviceId : option string)
    (first fallback : Js.Outcome (list Sdk.Track))
    (enumerate : option (Js.Outcome (list MediaDeviceInfo)))
  : Js.Outcome unit * World :=
  let muted := User.userWantsMicMuted (user w) in
  let w := effect (Sdk (GetUserMedia (startOptions microphoneDeviceId cameraDeviceId))) w in
  match first with
  | Js.Returns tracks => startWith muted tracks enumerate w
  | Js.Throws e =>
      if UserMedia.isNotAllowed e then
        startWith muted [] enumerate
          (onMedia (Media.setUserMediaError (Some "NotAllowedError")) w)
      else if UserMedia.isOverconstrained e then
        let w := effect GetUserMediaAny w in
        match fallback with
        | Js.Returns tracks => startWith muted tracks enumerate w
        | Js.Throws e' => (Js.Throws e', w)
        end
      else
        startWith muted [] enumerate
          (onMedia (Media.setUserMediaError (Some (Js.name e))) w)
  end.

Definition requestPermissionAndPopulateDevices (w : World)
    (answer : Js.Outcome (list Sdk.Track))
    (enumerate : option (Js.Outcome (list MediaDeviceInfo)))
  : Js.Outcome unit * World :=
  let w :=
    effect (GetUserMediaPreferred (User.microphoneDeviceId (user w))
                                  (User.cameraDeviceId (user w))) w in
  let tracks := match answer with Js.Returns ts => ts | Js.Throws _ => [] end in
  let w := fold_left eachPopulatedTrack tracks w in
  match loadDevices enumerate w with
  | (Js.Throws e, w) => (Js.Throws e, w)
  | (Js.Returns _, w) =>
      (Js.Returns tt, fold_left (fun w track => effect (StopMediaTrack track) w) tracks w)
  end.

(** [changeActiveMicrophone] / [changeActiveCamera]: the track is
    dropped, the call resolves with nothing. *)
Definition changeActiveMicrophone (w : World) (deviceId : string)
    (answer : Js.Outcome (list Sdk.Track)) : Js.Outcome unit * World :=
  match acquireIn UserMedia.getMicrophone w deviceId answer with
  | (Js.Returns _, w) => (Js.Returns tt, w)
  | (Js.Throws e, w) => (Js.Throws e, w)
  end.

Definition changeActiveCamera (w : World) (deviceId : string)
    (answer : Js.Outcome (list Sdk.Track)) : Js.Outcome unit * World :=
  match acquireIn UserMedia.getCamera w deviceId answer with
  | (Js.Returns _, w) => (Js.Returns tt, w)
  | (Js.Throws e, w) => (Js.Throws e, w)
  end.

End UserMediaOps.

(** unnamed/part_002, continued *)
Module UserMediaBOps.

Import Platform.

Definition requestPermissionAndStartDevices (w : World)
    (microphoneDeviceId cameraDeviceId : option string)
    (first : Js.Outcome (list Sdk.Track))
    (enumerate : option (Js.Outcome (list MediaDeviceInfo)))
  : Js.Outcome unit * World :=
  let muted := User.userWantsMicMuted (user w) in
  let w := effect (Sdk (GetUserMedia (startOptions microphoneDeviceId cameraDeviceId))) w in
  match first with
  | Js.Returns tracks => startWith muted tracks enumerate w
  | Js.Throws e =>
      startWith muted [] enumerate
        (onMedia (Media.setUserMediaError (Some (Js.name e))) w)
  end.

Definition requestPermissionAndPopulateDevices (w : World)
    (answer : Js.Outcome (list Sdk.Track))
    (enumerate : option (Js.Outcome (list MediaDeviceInfo)))
  : Js.Outcome unit * World :=
  let w :=
    effect (GetUserMediaPreferred (User.microphoneDeviceId (user w))
                                  (User.cameraDeviceId (user w))) w in
  let tracks := match answer with Js.Returns ts => ts | Js.Throws _ => [] end in
  let w :=
    fold_left (fun w track => effect (StopMediaTrack track) (eachPopulatedTrack w track))
      tracks w in
  loadDevices enumerate w.

(** [changeActiveMicrophone] / [changeActiveCamera]: the track is handed
    on. *)
Definition changeActiveMicrophone (w : World) (deviceId : string)
    (answer : Js.Outcome (list Sdk.Track)) : Js.Outcome (option Sdk.Track) * World :=
  acquireIn UserMediaB.getMicrophone w deviceId answer.

Definition changeActiveCamera (w : World) (deviceId : string)
    (answer : Js.Outcome (list Sdk.Track)) : Js.Outcome (option Sdk.Track) * World :=
  acquireIn UserMediaB.getCamera w deviceId answer.

End UserMediaBOps.

(** The local-media provider as a transition system, for either copy. *)
Module MediaSystem.

Import Platform.

Inductive Copy : Type := TSX | Part002.

(** The mute effect: [muted] is [activeMicrophone.muted] when it runs. *)
Definition syncMute (muted : bool) (w : World) : World :=
  match Media.activeMicrophone (media w) with
  | Some t =>
      if User.userWantsMicMuted (user w) && negb muted then effect (Sdk (Mute t)) w
      else if negb (User.userWantsMicMuted (user w)) && muted then effect (UnMute t) w
      else w
  | None => w
  end.

Inductive Action : Type :=
| GetMicrophone (deviceId : string) (answer : Js.Outcome (list Sdk.Track))
| GetCamera (deviceId : string) (answer : Js.Outcome (list Sdk.Track))
| StartDevices (microphoneDeviceId cameraDeviceId : option string)
    (first fallback : Js.Outcome (list Sdk.Track))
    (enumerate : option (Js.Outcome (list MediaDeviceInfo)))
| PopulateDevices (answer : Js.Outcome (list Sdk.Track))
    (enumerate : option (Js.Outcome (list MediaDeviceInfo)))
| StopActiveCamera
| MuteActiveMicrophone
| UnMuteActiveMicrophone
| DeviceChange (enumerate : option (Js.Outcome (list MediaDeviceInfo)))
| UserChanges (f : User.State -> User.State)
| SyncMute (muted : bool).

Definition step (copy : Copy) (w : World) (a : Action) : World :=
  match a with
  | GetMicrophone d answer =>
      snd (acquireIn (match copy with TSX => UserMedia.getMicrophone
                                 | Part002 => UserMediaB.getMicrophone end) w d answer)
  | GetCamera d answer =>
      snd (acquireIn (match copy with TSX => UserMedia.getCamera
                                 | Part002 => UserMediaB.getCamera end) w d answer)
  | StartDevices mic cam first fallback enumerate =>
      match copy with
      | TSX => snd (UserMediaOps.requestPermissionAndStartDevices w mic cam first fallback enumerate)
      | Part002 => snd (UserMediaBOps.requestPermissionAndStartDevices w mic cam first enumerate)
      end
  | PopulateDevices answer enumerate =>
      match copy with
      | TSX => snd (UserMediaOps.requestPermissionAndPopulateDevices w answer enumerate)
      | Part002 => snd (UserMediaBOps.requestPermissionAndPopulateDevices w answer enumerate)
      end
  | StopActiveCamera => stopActiveCamera w
  | MuteActiveMicrophone => muteActiveMicrophone w
  | UnMuteActiveMicrophone => unMuteActiveMicrophone w
  | DeviceChange enumerate => snd (loadDevices enumerate w)
  | UserChanges f => onUser f w
  | SyncMute muted => syncMute muted w
  end.

Definition run (copy : Copy) (w : World) (actions : list Action) : World :=
  fold_left (step copy) actions w.

Definition reachable (copy : Copy) (w : World) : Prop :=
  exists u actions, w = run copy (initial u) actions.

End MediaSystem.

(* ------------------------------------------------------------------ *)
(** ** The rest of the session provider *)

Module SpaceOps.

(** [s.includes(needle)] *)
Definition includes (needle s : string) : bool :=
  match String.index 0 needle s with Some _ => true | None => false end.

Definition toList {A : Type} (x : option A) : list A :=
  match x with Some a => [a] | None => [] end.

(** [publishForLocalParticipant].  The device ids, [cameraOff] and
    [userWantsMicMuted] are the ones the callback closed over: those of
    [c].  [published] is what [publishTracks] does, if it is called. *)
Definition publishForLocalParticipant (getCamera getMicrophone : Space.Acquire)
    (c : Media.Ctx)
    (cameraAnswer microphoneAnswer : Js.Outcome (list Sdk.Track))
    (published : Js.Outcome (list Sdk.Track))
  : Js.Outcome unit * Media.Ctx :=
  let u := Media.user c in
  let camera :=
    if Js.truthyString (Some (User.cameraDeviceId u)) && negb (User.cameraOff u)
    then
      match getCamera c (User.cameraDeviceId u) cameraAnswer with
      | (Js.Returns cameraTrack, c) => (Js.Returns (toList cameraTrack), c)
      | (Js.Throws e, c) => (Js.Throws e, c)
      end
    else (Js.Returns [], c) in
  match camera with
  | (Js.Throws e, c) => (Js.Throws e, c)
  | (Js.Returns cameraTracks, c) =>
      let microphone :=
        if Js.truthyString (Some (User.microphoneDeviceId u))
        then
          match getMicrophone c (User.microphoneDeviceId u) microphoneAnswer with
          | (Js.Returns microphoneTrack, c) => (Js.Returns (toList microphoneTrack), c)
          | (Js.Throws e, c) => (Js.Throws e, c)
          end
        else (Js.Returns [], c) in
      match microphone with
      | (Js.Throws e, c) => (Js.Throws e, c)
      | (Js.Returns microphoneTracks, c) =>
          let tracksToPublish := cameraTracks ++ microphoneTracks in
          match tracksToPublish with
          | [] => (Js.Returns tt, c)
          | _ :: _ =>
              let c := Media.call (PublishTracks (map Some tracksToPublish)) c in
              match published with
              | Js.Throws e => (Js.Throws e, c)
              | Js.Returns publishedTracks =>
                  match Js.find (fun track =>
                           Sdk.TrackSource_eqb (Sdk.source track) Sdk.Microphone)
                          publishedTracks with
                  | Some publishedMicrophone =>
                      (Js.Returns tt,
                       Media.when (User.userWantsMicMuted u)
                         (Media.call (Mute publishedMicrophone)) c)
                  | None => (Js.Returns tt, c)
                  end
              end
          end
      end
  end.

(** The final [try] of [joinSpace] in full: [joined] is what
    [_space.join()] does, with the local participant object as it is when
    [setLocalParticipant] stores it. *)
Definition joinSpaceTry (getCamera getMicrophone : Space.Acquire)
    (_space : Space.Handle) (joined : Js.Outcome LocalParticipant.t)
    (cameraAnswer microphoneAnswer : Js.Outcome (list Sdk.Track))
    (published : Js.Outcome (list Sdk.Track))
    (s : Space.State) (c : Media.Ctx) : Space.State * Media.Ctx :=
  match joined with
  | Js.Throws error => (Space.joinSpaceSettle _space (Js.Throws error) s, c)
  | Js.Returns _localParticipant =>
      match publishForLocalParticipant getCamera getMicrophone c
              cameraAnswer microphoneAnswer published with
      | (Js.Returns _, c) =>
          (Space.joinSpaceSettle _space (Js.Returns _localParticipant) s, c)
      | (Js.Throws error, c) =>
          (Space.joinSpaceSettle _space (Js.Throws error) s, c)
      end
  end.

(** The [catch] block of [startScreenShare]. *)
Definition catchScreenShare (err : Js.JsError) (s : Space.State) : Space.State :=
  if includes "Permission denied" (Js.message err) then s
  else Space.setScreenShareError (Some (Js.message err)) s.

(** [startScreenShare].  [display] is what [getDisplayMedia] does ([None]:
    it resolved with [undefined]); [published] is what [publishTracks]
    does.  The promise of [publishTracks] is returned from inside the
    [try] without being awaited there: its rejection is the caller's. *)
Definition startScreenShare (s : Space.State)
    (display : Js.Outcome (option (list Sdk.Track)))
    (published : Js.Outcome (list Sdk.Track))
  : Js.Outcome (option Sdk.Track) * Space.State * list Platform.Effect :=
  match Space.localParticipant s with
  | None => (Js.Returns None, s, [])
  | Some localParticipant =>
      match display with
      | Js.Throws err => (Js.Returns None, catchScreenShare err s, [Platform.GetDisplayMedia])
      | Js.Returns screenStreams =>
          match
            match screenStreams with
            | Some tracks => Js.find Space.isScreenshare tracks
            | None => None
            end
          with
          | None =>
              (Js.Returns None,
               catchScreenShare (Js.newError "No screen share track found.") s,
               [Platform.GetDisplayMedia])
          | Some screenStream =>
              let log := [Platform.GetDisplayMedia;
                          Platform.Sdk (PublishTracks [Some screenStream])] in
              match published with
              | Js.Throws e => (Js.Throws e, s, log)
              | Js.Returns tracks =>
                  (Js.Returns (hd_error tracks),
                   Space.afterPublish [Some screenStream] s, log)
              end
          end
      end
  end.

(** [stopScreenShare]: what it asks of the SDK. *)
Definition stopScreenShare (s : Space.State) : list SdkCall :=
  match Space.screenShareTrack s with
  | Some screenShareTrack =>
      if Sdk.isLocalTrack screenShareTrack then
        match Space.localParticipant s with
        | Some _ => [UnpublishTracks [screenShareTrack]]
        | None => []
        end
      else []
  | None => []
  end.

End SpaceOps.

(* ================================================================== *)
(** * Facts about the array helpers *)

Section ArrayFacts.
Context {A : Type}.
Implicit Types (f : A -> bool) (l : list A).

Lemma find_none_all f l :
  Js.find f l = None -> forall x, In x l -> f x = false.
Proof.
  induction l as [|a r IH]; simpl; [tauto|].
  destruct (f a) eqn:Fa; [discriminate|].
  intros H x [<-|Hx]; auto.
Qed.

Lemma find_some_in f l x :
  Js.find f l = Some x -> In x l /\ f x = true.
Proof.
  induction l as [|a r IH]; simpl; [discriminate|].
  destruct (f a) eqn:Fa.
  - intros [= <-]. auto.
  - intros H. destruct (IH H). auto.
Qed.

(** [findIndexFrom] either finds nothing, and then no element satisfies
    the test, or returns the offset of the first element that does. *)
Lemma findIndexFrom_cases f l k :
  0 <= k ->
  (Js.findIndexFrom f l k = -1 /\ forall x, In x l -> f x = false)
  \/ (exists n x,
        Js.findIndexFrom f l k = k + Z.of_nat n
        /\ nth_error l n = Some x /\ f x = true
        /\ forall y, In y (firstn n l) -> f y = false).
Proof.
  revert k. induction l as [|a r IH]; intros k Hk; simpl.
  - left. split; [reflexivity | tauto].
  - destruct (f a) eqn:Fa.
    + right. exists 0%nat, a. simpl. repeat split; [lia | assumption | tauto].
    + destruct (IH (k + 1) ltac:(lia)) as [[E All]|(n & x & E & Hn & Fx & Before)].
      * left. split; [assumption|]. intros x [<-|Hx]; auto.
      * right. exists (S n), x. simpl. repeat split; try assumption; [lia|].
        intros y [<-|Hy]; auto.
Qed.

Lemma findIndex_cases f l :
  (Js.findIndex f l = -1 /\ forall x, In x l -> f x = false)
  \/ (exists n x,
        Js.findIndex f l = Z.of_nat n
        /\ nth_error l n = Some x /\ f x = true
        /\ forall y, In y (firstn n l) -> f y = false).
Proof.
  unfold Js.findIndex.
  destruct (findIndexFrom_cases f l 0 ltac:(lia)) as [H|(n & x & E & H)]; [left; exact H|].
  right. exists n, x. rewrite E. split; [lia | exact H].
Qed.



Lemma removeAt_beyond l n : (List.length l <= n)%nat -> Js.removeAt n l = l.
Proof.
  revert n. induction l as [|a r IH]; intros [|n]; simpl; try reflexivity; try lia.
  intros H. now rewrite IH by lia.
Qed.

Lemma removeAt_in l n y : In y (Js.removeAt n l) -> In y l.
Proof.
  revert n. induction l as [|a r IH]; intros [|n]; simpl; try tauto.
  intros [->|H]; eauto.
Qed.

Lemma removeAt_map {B : Type} (g : A -> B) l n :
  map g (Js.removeAt n l) = Js.removeAt n (map g l).
Proof.
  revert n. induction l as [|a r IH]; intros [|n]; simpl; try reflexivity.
  now rewrite IH.
Qed.

Lemma removeAt_NoDup l n : NoDup l -> NoDup (Js.removeAt n l).
Proof.
  revert n. induction l as [|a r IH]; intros [|n] H; simpl; try assumption.
  - now inversion H.
  - inversion H; subst. constructor; [|now apply IH].
    intros Hin. now apply removeAt_in in Hin.
Qed.

Lemma removeAt_drops l n x :
  NoDup l -> nth_error l n = Some x -> ~ In x (Js.removeAt n l).
Proof.
  revert n. induction l as [|a r IH]; intros [|n] H; simpl; try discriminate.
  - intros [= ->]. now inversion H.
  - intros Hn. inversion H; subst. intros [->|Hin].
    + apply nth_error_In in Hn. contradiction.
    + exact (IH _ H3 Hn Hin).
Qed.

(** [splice(idx, 1)] at an index inside the array removes that element. *)
Lemma splice1_inside l n :
  (n < List.length l)%nat -> Js.splice1 (Z.of_nat n) l = Js.removeAt n l.
Proof.
  intros H. unfold Js.splice1, Js.spliceStart.
  destruct (Z.ltb_spec (Z.of_nat n) 0); [lia|].
  now replace (Z.to_nat (Z.min (Z.of_nat n) (Z.of_nat (List.length l)))) with n by lia.
Qed.

(** [splice(-1, 1)] removes the last element, if there is one. *)
Lemma splice1_minus_one l :
  Js.splice1 (-1) l = Js.removeAt (Nat.pred (List.length l)) l.
Proof.
  unfold Js.splice1, Js.spliceStart.
  destruct (Z.ltb_spec (-1) 0) as [_|Habs]; [|lia].
  destruct l as [|a r]; [reflexivity|].
  f_equal. cbn [List.length Nat.pred]. lia.
Qed.

Lemma writeFirst_map {B : Type} (h : A -> B) f (g : A -> A) l :
  (forall x, h (g x) = h x) -> map h (Space.writeFirst f g l) = map h l.
Proof.
  intros Hg. induction l as [|a r IH]; simpl; [reflexivity|].
  destruct (f a); simpl; now rewrite ?Hg, ?IH.
Qed.

End ArrayFacts.

(* ================================================================== *)
(** * The roster *)

Lemma sameConnection_refl p : Space.sameConnection p p = true.
Proof. apply String.eqb_refl. Qed.

Lemma sameConnection_true q p :
  Space.sameConnection q p = true ->
  RemoteParticipant.connectionId p = RemoteParticipant.connectionId q.
Proof. apply String.eqb_eq. Qed.

Lemma sameConnection_false q p :
  Space.sameConnection q p = false ->
  RemoteParticipant.connectionId p <> RemoteParticipant.connectionId q.
Proof. apply String.eqb_neq. Qed.

Lemma absent_not_in speaker roster :
  (forall q, In q roster -> Space.sameConnection speaker q = false) ->
  ~ In (RemoteParticipant.connectionId speaker) (ids roster).
Proof.
  intros H Hin. apply in_map_iff in Hin as (q & E & Hq).
  apply H in Hq. apply sameConnection_false in Hq. congruence.
Qed.

Section Promotion.

Variable MAX_PARTICIPANTS_PER_PAGE : Z.

Let promote := Space.promote MAX_PARTICIPANTS_PER_PAGE.

(** What one turn of the loop does, by where the speaker stands. *)
Lemma promote_found cur speaker n :
  Js.findIndex (Space.sameConnection speaker) cur = Z.of_nat n ->
  promote cur {| participant := Remote speaker |}
  = if Z.of_nat n >=? MAX_PARTICIPANTS_PER_PAGE - 1
    then speaker :: Js.removeAt n cur
    else cur.
Proof.
  intros E. unfold promote, Space.promote. cbn [participant]. rewrite E.
  destruct (Z.of_nat n >=? MAX_PARTICIPANTS_PER_PAGE - 1); [|reflexivity].
  unfold Js.unshift. f_equal. apply splice1_inside.
  destruct (findIndex_cases (Space.sameConnection speaker) cur)
    as [[E' _]|(m & x & E' & Hm & _)]; [lia|].
  assert (m = n) as -> by lia.
  apply nth_error_Some. congruence.
Qed.

Lemma promote_absent cur speaker :
  Js.findIndex (Space.sameConnection speaker) cur = -1 ->
  promote cur {| participant := Remote speaker |}
  = if -1 >=? MAX_PARTICIPANTS_PER_PAGE - 1
    then speaker :: Js.removeAt (Nat.pred (List.length cur)) cur
    else cur.
Proof.
  intros E. unfold promote, Space.promote. cbn [participant]. rewrite E.
  destruct (-1 >=? MAX_PARTICIPANTS_PER_PAGE - 1); [|reflexivity].
  unfold Js.unshift. now rewrite splice1_minus_one.
Qed.

Lemma promote_local cur l :
  promote cur {| participant := Local l |} = cur.
Proof. reflexivity. Qed.

Lemma promote_unique cur change :
  uniqueIds cur -> uniqueIds (promote cur change).
Proof.
  unfold uniqueIds. intros U. destruct change as [[l|speaker]]; [exact U|].
  destruct (findIndex_cases (Space.sameConnection speaker) cur)
    as [[E None]|(n & q & E & Hn & Fq & _)].
  - rewrite (promote_absent _ _ E).
    destruct (-1 >=? MAX_PARTICIPANTS_PER_PAGE - 1); [|exact U].
    cbn [map]. rewrite removeAt_map. constructor.
    + intros Hin. apply removeAt_in in Hin. now apply (absent_not_in speaker cur).
    + now apply removeAt_NoDup.
  - rewrite (promote_found _ _ _ E).
    destruct (Z.of_nat n >=? MAX_PARTICIPANTS_PER_PAGE - 1); [|exact U].
    cbn [map]. rewrite removeAt_map. constructor.
    + apply removeAt_drops; [exact U|].
      rewrite nth_error_map, Hn. cbn. f_equal. now apply sameConnection_true.
    + now apply removeAt_NoDup.
Qed.

Lemma activeSpeakerChanged_unique changes old :
  uniqueIds old ->
  uniqueIds (Space.activeSpeakerChanged MAX_PARTICIPANTS_PER_PAGE changes old).
Proof.
  unfold Space.activeSpeakerChanged. revert old.
  induction changes as [|c r IH]; intros old U; cbn [fold_left]; [exact U|].
  apply IH. now apply promote_unique.
Qed.

End Promotion.


(* ================================================================== *)
(** * leaveSpace *)

(** C1, as amended.  Whatever the session state, and whether
    [removeAllListeners] and [leave] return or throw, once [leaveSpace]
    has run (returning, or passing on what the SDK threw) the roster is
    empty, [isJoined] and [isBroadcasting] are false, and the local
    participant, the join error and the expiry are cleared.  The
    screen-share track, its owner and the screen-share error are left as
    they were. *)
Theorem leaveSpace_clears_session
    (s : Space.State) (removeAnswer leaveAnswer : option Js.JsError) :
  let '(outcome, s', _) := Space.leaveSpace s removeAnswer leaveAnswer in
  (Space.remoteParticipants s' = []
   /\ Space.isJoined s' = false
   /\ Space.isBroadcasting s' = false
   /\ Space.localParticipant s' = None
   /\ Space.joinError s' = None
   /\ Space.spaceEndsAt s' = None)
  /\ (Space.screenShareTrack s' = Space.screenShareTrack s
      /\ Space.participantScreenSharing s' = Space.participantScreenSharing s
      /\ Space.screenShareError s' = Space.screenShareError s)
  /\ (outcome = Js.Returns tt
      \/ exists e, outcome = Js.Throws e
                   /\ (removeAnswer = Some e \/ leaveAnswer = Some e)).
Proof.
  unfold Space.leaveSpace, Space.leaveSpaceTry.
  destruct (Space.space s) as [sp|]; [destruct removeAnswer as [e|]; [|destruct leaveAnswer as [e|]]|];
    cbn; repeat split; try reflexivity; eauto.
Qed.

(** C1 as stated fails: [p2] shares a screen, the user leaves, and the
    screen-share state still holds [p2]'s track. *)
Lemma leaveSpace_keeps_screen_share :
  ~ (let '(_, s', _) := Space.leaveSpace Ex.watching None None in
     Space.remoteParticipants s' = []
     /\ Space.isJoined s' = false
     /\ Space.isBroadcasting s' = false
     /\ Space.localParticipant s' = None
     /\ Space.joinError s' = None
     /\ Space.spaceEndsAt s' = None
     /\ Space.screenShareTrack s' = None
     /\ Space.participantScreenSharing s' = None).
Proof.
  cbn. intros (_ & _ & _ & _ & _ & _ & H & _). discriminate H.
Qed.

(** The same run, read off: everything else is cleared, the screen share
    of [p2] stays. *)
Example leaveSpace_after_watching :
  let '(outcome, s', calls) := Space.leaveSpace Ex.watching None None in
  outcome = Js.Returns tt
  /\ calls = [RemoveAllListeners; Leave]
  /\ Space.remoteParticipants s' = []
  /\ Space.screenShareTrack s' = Some Ex.screen
  /\ Space.screenShareParticipantConnectionId s' = Some "p2"
  /\ Space.isScreenShareActive s' = true.
Proof. cbn. repeat split. Qed.

(** A throwing [removeAllListeners] skips [leave] and is passed on; the
    state is cleared all the same. *)
Example leaveSpace_when_sdk_throws :
  let '(outcome, s', calls) :=
    Space.leaveSpace Ex.watching (Some Ex.notFound) None in
  outcome = Js.Throws Ex.notFound
  /\ calls = [RemoveAllListeners]
  /\ Space.remoteParticipants s' = []
  /\ Space.isJoined s' = false.
Proof. cbn. repeat split. Qed.

(* ================================================================== *)
(** * The screen-share slot *)

(** C6.  A track-published or track-subscribed event whose track is a
    screen share with media sets the slot to that track and its owner,
    whatever the slot held before (one slot: the last share wins); an
    unpublish event for a screen-share track then empties the slot: no
    track, no owner. *)
Theorem screen_share_lifecycle
    (s : Space.State) (owner : Participant) (track : Sdk.Track)
    (isSubscribed : RemoteParticipant.t -> bool) (s1 : Space.State) :
  Sdk.source track = Sdk.Screenshare ->
  Sdk.hasMedia track = true ->
  s1 = Space.handleParticipantTrackPublished owner track s
  \/ s1 = Space.handleParticipantTrackSubscribed isSubscribed owner track s ->
  (Space.screenShareTrack s1 = Some track
   /\ Space.participantScreenSharing s1 = Some owner
   /\ Space.isScreenShareActive s1 = true)
  /\ (forall other again,
        Sdk.source again = Sdk.source track ->
        let s2 := Space.handleParticipantTrackUnpublished other again s1 in
        Space.screenShareTrack s2 = None
        /\ Space.participantScreenSharing s2 = None
        /\ Space.isScreenShareActive s2 = false).
Proof.
  intros Hsrc Hmedia Hs1.
  assert (Hset : Space.screenShareTrack s1 = Some track
                 /\ Space.participantScreenSharing s1 = Some owner
                 /\ Space.isScreenShareActive s1 = true).
  { destruct Hs1 as [->| ->];
      unfold Space.handleParticipantTrackPublished,
        Space.handleParticipantTrackSubscribed, Space.isScreenshare;
      rewrite Hsrc, Hmedia; cbn; auto. }
  split; [exact Hset|].
  intros other again Hagain s2. subst s2.
  unfold Space.handleParticipantTrackUnpublished, Space.isScreenshare.
  rewrite Hagain, Hsrc. cbn. auto.
Qed.

Lemma screen_share_lifecycle_witness :
  let s1 := Space.handleParticipantTrackPublished (Remote Ex.p2) Ex.screen Ex.joinedAlone in
  Space.screenShareParticipantConnectionId s1 = Some "p2"
  /\ Space.screenShareTrack
       (Space.handleParticipantTrackUnpublished (Remote Ex.p2) Ex.screen s1) = None.
Proof.
  cbv zeta.
  destruct (screen_share_lifecycle Ex.joinedAlone (Remote Ex.p2) Ex.screen
              (fun _ => true) _ eq_refl eq_refl (or_introl eq_refl))
    as ((_ & Howner & _) & Hclear).
  split.
  - unfold Space.screenShareParticipantConnectionId. rewrite Howner. reflexivity.
  - exact (proj1 (Hclear (Remote Ex.p2) Ex.screen eq_refl)).
Defined.

(** A second share replaces the first: the slot never holds two. *)
Example screen_share_last_wins :
  let other :=
    {| Sdk.trackObj := 8; Sdk.kind := Sdk.Video; Sdk.source := Sdk.Screenshare;
       Sdk.deviceId := None; Sdk.hasMedia := true; Sdk.isLocalTrack := false |} in
  let s := Space.handleParticipantTrackPublished (Remote Ex.p3) other Ex.watching in
  Space.screenShareTrack s = Some other
  /\ Space.participantScreenSharing s = Some (Remote Ex.p3).
Proof. cbn. split; reflexivity. Qed.

(** A screen-share track without media is not recorded. *)
Example screen_share_needs_media :
  let silent :=
    {| Sdk.trackObj := 9; Sdk.kind := Sdk.Video; Sdk.source := Sdk.Screenshare;
       Sdk.deviceId := None; Sdk.hasMedia := false; Sdk.isLocalTrack := false |} in
  Space.handleParticipantTrackPublished (Remote Ex.p2) silent Ex.joinedAlone
  = Ex.joinedAlone.
Proof. reflexivity. Qed.

(* ================================================================== *)
(** * unPublishDevice *)

(** C7, as amended.  [unPublishDevice] throws only when there is no local
    participant.  With a local participant and no published track of that
    device id it returns normally and asks nothing of the SDK; with one,
    it asks the SDK to unpublish the first such track. *)
Theorem unPublishDevice_outcomes (s : Space.State) (deviceId : string) :
  (Space.localParticipant s = None ->
     Space.unPublishDevice s deviceId = (Js.Throws NotJoinedOrPublished, []))
  /\ (forall lp,
        Space.localParticipant s = Some lp ->
        Js.find (Sdk.deviceIdIs deviceId) (LocalParticipant.getTracks lp) = None ->
        Space.unPublishDevice s deviceId = (Js.Returns tt, []))
  /\ (forall lp published,
        Space.localParticipant s = Some lp ->
        Js.find (Sdk.deviceIdIs deviceId) (LocalParticipant.getTracks lp) = Some published ->
        Space.unPublishDevice s deviceId
        = (Js.Returns tt, [UnpublishTracks [published]])).
Proof.
  unfold Space.unPublishDevice. repeat split.
  - intros ->. reflexivity.
  - intros lp -> ->. reflexivity.
  - intros lp published -> ->. reflexivity.
Qed.

Lemma unPublishDevice_outcomes_witness :
  Space.unPublishDevice Ex.joinedAlone "usb-1" = (Js.Returns tt, []).
Proof.
  exact (proj1 (proj2 (unPublishDevice_outcomes Ex.joinedAlone "usb-1"))
           Ex.me eq_refl eq_refl).
Defined.

(** C7 as stated fails: joined, nothing published, and the call returns
    without an error. *)
Lemma unPublishDevice_not_published_returns :
  Space.localParticipant Ex.joinedAlone = Some Ex.me
  /\ Js.find (Sdk.deviceIdIs "usb-1") (LocalParticipant.getTracks Ex.me) = None
  /\ ~ (exists e, fst (Space.unPublishDevice Ex.joinedAlone "usb-1") = Js.Throws e).
Proof.
  repeat split. intros [e H]. discriminate H.
Qed.

(* ================================================================== *)
(** * Device acquisition *)

(** A failed [getUserMedia] leaves no track: the error is recorded, the
    loop body never runs, and [tracks[0]] is [undefined]. *)
Lemma acquire_failed options onError each c e :
  Media.acquire options onError each c (Js.Throws e)
  = (Js.Returns None,
     Media.onMedia (onError e) (Media.call (GetUserMedia options) c)).
Proof. reflexivity. Qed.

Lemma acquire_returns options onError each c answer :
  exists track c', Media.acquire options onError each c answer = (Js.Returns track, c').
Proof.
  unfold Media.acquire. destruct answer as [ts|e]; eauto.
Qed.

(** What context/UserMedia.tsx records for a failure. *)
Definition recorded (e : Js.JsError) : option string :=
  Media.userMediaError (UserMedia.catchAcquisition e Media.initial).

Lemma catchAcquisition_error e m :
  Media.userMediaError (UserMedia.catchAcquisition e m) = recorded e.
Proof.
  unfold recorded, UserMedia.catchAcquisition.
  destruct (UserMedia.isNotAllowed e), (UserMedia.isOverconstrained e); reflexivity.
Qed.

Lemma includes_in l s : UserMedia.includes l s = true <-> In s l.
Proof.
  unfold UserMedia.includes. rewrite existsb_exists. split.
  - intros (x & Hx & E). apply String.eqb_eq in E. now subst.
  - intros H. exists s. split; [assumption | apply String.eqb_refl].
Qed.

Lemma recorded_unfold e :
  recorded e
  = if userDeclined e || Js.isDOMException e then Some "NotAllowedError"
    else if constraintsUnmet e then Some "OverconstrainedError"
    else Some (Js.name e).
Proof.
  unfold recorded, UserMedia.catchAcquisition, UserMedia.isNotAllowed,
    UserMedia.isOverconstrained, userDeclined, constraintsUnmet.
  destruct (_ || _); [reflexivity|]. destruct (UserMedia.includes _ _); reflexivity.
Qed.

Lemma named_NotAllowed_declined e :
  Js.name e = "NotAllowedError" -> userDeclined e = true.
Proof. intros H. apply includes_in. rewrite H. cbn. auto. Qed.

Lemma named_Overconstrained_unmet e :
  Js.name e = "OverconstrainedError" -> constraintsUnmet e = true.
Proof. intros H. apply includes_in. rewrite H. cbn. auto. Qed.

(** The three branches of the [catch] block, read as a classification. *)
Lemma recorded_cases e :
  (recorded e = Some "NotAllowedError"
   <-> userDeclined e = true \/ Js.isDOMException e = true)
  /\ (recorded e = Some "OverconstrainedError"
      <-> constraintsUnmet e = true
          /\ userDeclined e = false /\ Js.isDOMException e = false)
  /\ (userDeclined e = false -> Js.isDOMException e = false ->
      constraintsUnmet e = false -> recorded e = Some (Js.name e)).
Proof.
  rewrite recorded_unfold.
  pose proof (named_NotAllowed_declined e) as HD.
  pose proof (named_Overconstrained_unmet e) as HO.
  destruct (userDeclined e) eqn:D, (Js.isDOMException e) eqn:X,
    (constraintsUnmet e) eqn:O; cbn; (split; [|split]);
    try (split; intros H); try (intros; reflexivity);
    try tauto; try discriminate;
    try (destruct H as [H|H]; discriminate H);
    try (destruct H as (H1 & H2 & H3); discriminate);
    try (injection H as H; (apply HD in H || apply HO in H); discriminate H).
Qed.

(** C8, as amended.  When [getUserMedia] fails inside [getMicrophone] or
    [getCamera], the call does not throw: it returns [undefined], and the
    failure is stored in [userMediaError].  In context/UserMedia.tsx the
    stored value is [NotAllowedError] exactly when the failure is named
    [NotAllowedError] or [PermissionDeniedError] or is any [DOMException];
    it is [OverconstrainedError] exactly when the failure is none of those
    and is named [OverconstrainedError] or [ConstraintNotSatisfiedError];
    otherwise it is the failure's own name.  The copy in unnamed/part_002
    stores the failure's own name in every case. *)
Theorem acquisition_failure_recorded
    (c : Media.Ctx) (deviceId : string) (e : Js.JsError) :
  let failed := Js.Throws e in
  let error r := Media.userMediaError (Media.media (snd r)) in
  (fst (UserMedia.getMicrophone c deviceId failed) = Js.Returns None
   /\ fst (UserMedia.getCamera c deviceId failed) = Js.Returns None
   /\ fst (UserMediaB.getMicrophone c deviceId failed) = Js.Returns None
   /\ fst (UserMediaB.getCamera c deviceId failed) = Js.Returns None)
  /\ (exists stored,
        error (UserMedia.getMicrophone c deviceId failed) = Some stored
        /\ error (UserMedia.getCamera c deviceId failed) = Some stored
        /\ (stored = "NotAllowedError"
            <-> userDeclined e = true \/ Js.isDOMException e = true)
        /\ (stored = "OverconstrainedError"
            <-> constraintsUnmet e = true
                /\ userDeclined e = false /\ Js.isDOMException e = false)
        /\ (userDeclined e = false -> Js.isDOMException e = false ->
            constraintsUnmet e = false -> stored = Js.name e))
  /\ (error (UserMediaB.getMicrophone c deviceId failed) = Some (Js.name e)
      /\ error (UserMediaB.getCamera c deviceId failed) = Some (Js.name e)).
Proof.
  intros failed error. split; [repeat split|split; [|split; reflexivity]].
  unfold error, UserMedia.getMicrophone, UserMedia.getCamera, failed.
  rewrite !acquire_failed. cbn [snd Media.media Media.onMedia].
  rewrite !catchAcquisition_error.
  destruct (recorded_cases e) as (NA & OC & Other).
  destruct (recorded e) as [stored|] eqn:R.
  - exists stored. do 2 (split; [reflexivity|]). split; [|split].
    + split; intros H; [apply NA; congruence | apply NA in H; congruence].
    + split; intros H; [apply OC; congruence | apply OC in H; congruence].
    + intros D X O. specialize (Other D X O). congruence.
  - rewrite recorded_unfold in R.
    destruct (_ || _); [discriminate|]. destruct (constraintsUnmet e); discriminate.
Qed.

Lemma acquisition_failure_recorded_witness :
  Media.userMediaError
    (Media.media (snd (UserMedia.getMicrophone Ex.ctx "usb-1" (Js.Throws Ex.overconstrained))))
  = Some "OverconstrainedError".
Proof.
  destruct (acquisition_failure_recorded Ex.ctx "usb-1" Ex.overconstrained)
    as (_ & (stored & Hmic & _ & _ & HO & _) & _).
  cbv zeta in Hmic. rewrite Hmic. f_equal. apply HO. repeat split.
Defined.

(** C8 as stated fails: a missing device is a [DOMException] named
    [NotFoundError]; the user declined nothing, and what is stored is
    [NotAllowedError]. *)
Lemma acquisition_failure_misclassified :
  ~ (Media.userMediaError
       (Media.media (snd (UserMedia.getMicrophone Ex.ctx "usb-1" (Js.Throws Ex.notFound))))
     = Some "NotAllowedError"
     <-> userDeclined Ex.notFound = true).
Proof.
  intros [H _]. specialize (H eq_refl). discriminate H.
Qed.

(** An overconstrained failure that is a [DOMException] is stored as
    [NotAllowedError] too. *)
Example overconstrained_DOMException_stored_as_NotAllowed :
  recorded {| Js.name := "OverconstrainedError"; Js.message := "";
              Js.isDOMException := true |}
  = Some "NotAllowedError".
Proof. reflexivity. Qed.

(** C10.  When [getUserMedia] throws, [getMicrophone] and [getCamera]
    return normally with [undefined], the first element of the empty
    track list; and [publishMicrophone], when it gets that far, hands
    [[undefined]] to [publishTracks] as it is. *)
Theorem failed_acquisition_returns_undefined
    (c : Media.Ctx) (deviceId : string) (e : Js.JsError) :
  fst (UserMedia.getMicrophone c deviceId (Js.Throws e)) = Js.Returns None
  /\ fst (UserMedia.getCamera c deviceId (Js.Throws e)) = Js.Returns None
  /\ (forall s lp publishAnswer,
        Space.localParticipant s = Some lp ->
        Js.find (Space.isMicrophoneOf deviceId) (LocalParticipant.getAudioTracks lp) = None ->
        let '(_, _, c') :=
          Space.publishMicrophone UserMedia.getMicrophone s c deviceId
            (Js.Throws e) publishAnswer in
        Media.calls c'
        = Media.calls c
          ++ [GetUserMedia (Media.microphoneOptions deviceId); PublishTracks [None]]).
Proof.
  repeat split.
  intros s lp publishAnswer Hlp Hnone.
  unfold Space.publishMicrophone. rewrite Hlp.
  unfold UserMedia.getMicrophone. rewrite acquire_failed, Hnone.
  destruct publishAnswer as [err|]; [|destruct (User.userWantsMicMuted _)];
    cbn; now rewrite <- app_assoc.
Qed.

Lemma failed_acquisition_returns_undefined_witness :
  let '(outcome, _, c') :=
    Space.publishMicrophone UserMedia.getMicrophone Ex.joinedAlone Ex.ctx "usb-1"
      (Js.Throws Ex.notFound) None in
  outcome = Js.Returns tt
  /\ Media.calls c'
     = [GetUserMedia (Media.microphoneOptions "usb-1"); PublishTracks [None]].
Proof.
  pose proof (proj2 (proj2 (failed_acquisition_returns_undefined Ex.ctx "usb-1" Ex.notFound))
                Ex.joinedAlone Ex.me None eq_refl eq_refl) as H.
  cbn in *. split; [reflexivity | exact H].
Defined.

(** With the microphone to be muted, the same call ends in the engine's
    [TypeError]: [micTrack.mute()] on [undefined]. *)
Example publishMicrophone_undefined_mute :
  let muted := Media.onUser (fun u =>
    {| User.cameraDeviceId := User.cameraDeviceId u;
       User.microphoneDeviceId := User.microphoneDeviceId u;
       User.userWantsMicMuted := true; User.cameraOff := User.cameraOff u |}) Ex.ctx in
  fst (fst (Space.publishMicrophone UserMedia.getMicrophone Ex.joinedAlone muted
              "usb-1" (Js.Throws Ex.notFound) None))
  = Js.Throws (Js.typeErrorOnUndefined "mute").
Proof. reflexivity. Qed.

(* ================================================================== *)
(** * publishMicrophone *)

Lemma find_finds {A : Type} (f : A -> bool) (l : list A) (x : A) :
  In x l -> f x = true -> exists y, Js.find f l = Some y.
Proof.
  intros Hin Fx. destruct (Js.find f l) eqn:E; [eauto|].
  rewrite (find_none_all f l E x Hin) in Fx. discriminate.
Qed.

(** Neither copy of [getMicrophone] throws. *)
Lemma getMicrophone_returns (getMicrophone : Space.Acquire) :
  getMicrophone = UserMedia.getMicrophone \/ getMicrophone = UserMediaB.getMicrophone ->
  forall c deviceId answer,
    exists track c', getMicrophone c deviceId answer = (Js.Returns track, c').
Proof.
  intros [->| ->] c deviceId answer; apply acquire_returns.
Qed.

(** The duplicate check, on the tracks the SDK lists as published. *)
Lemma publishMicrophone_duplicate getMicrophone s c deviceId acquired publishAnswer lp t :
  getMicrophone = UserMedia.getMicrophone \/ getMicrophone = UserMediaB.getMicrophone ->
  Space.localParticipant s = Some lp ->
  In t (LocalParticipant.getAudioTracks lp) ->
  Space.isMicrophoneOf deviceId t = true ->
  Space.publishMicrophone getMicrophone s c deviceId acquired publishAnswer
  = (Js.Throws AlreadyPublished, s, snd (getMicrophone c deviceId acquired)).
Proof.
  intros Hgm Hlp Hin Hmic. unfold Space.publishMicrophone. rewrite Hlp.
  destruct (getMicrophone_returns _ Hgm c deviceId acquired) as (track & c' & ->).
  destruct (find_finds _ _ _ Hin Hmic) as (y & ->). reflexivity.
Qed.

(** C2, as amended.  [publishMicrophone] without a local participant
    fails with [NotJoined], before anything is asked of the device layer
    or the SDK and with no state written.  It fails with
    [AlreadyPublished] whenever the local participant's published audio
    tracks contain a microphone track whose device id is the argument; so
    a second call with the same device id fails with [AlreadyPublished]
    when the first call published a microphone track that reports that
    device id.  Both errors reach the caller as the outcome of the call;
    the session state is left as it was. *)
Theorem publishMicrophone_preconditions
    (getMicrophone : Space.Acquire) (s : Space.State) (c : Media.Ctx)
    (deviceId : string) (acquired : Js.Outcome (list Sdk.Track))
    (publishAnswer : option Js.JsError) :
  getMicrophone = UserMedia.getMicrophone \/ getMicrophone = UserMediaB.getMicrophone ->
  (Space.localParticipant s = None ->
     Space.publishMicrophone getMicrophone s c deviceId acquired publishAnswer
     = (Js.Throws NotJoined, s, c))
  /\ (forall lp t,
        Space.localParticipant s = Some lp ->
        In t (LocalParticipant.getAudioTracks lp) ->
        Space.isMicrophoneOf deviceId t = true ->
        exists c',
          Space.publishMicrophone getMicrophone s c deviceId acquired publishAnswer
          = (Js.Throws AlreadyPublished, s, c'))
  /\ (forall lp t rest,
        Space.localParticipant s = Some lp ->
        Space.isMicrophoneOf deviceId t = true ->
        Sdk.kind t = Sdk.Audio ->
        let '(_, s1, c1) :=
          Space.publishMicrophone getMicrophone s c deviceId
            (Js.Returns (t :: rest)) None in
        exists c2,
          Space.publishMicrophone getMicrophone s1 c1 deviceId acquired publishAnswer
          = (Js.Throws AlreadyPublished, s1, c2)).
Proof.
  intros Hgm. split; [|split].
  - intros Hnone. unfold Space.publishMicrophone. now rewrite Hnone.
  - intros lp t Hlp Hin Hmic. eexists.
    now apply publishMicrophone_duplicate with (lp := lp) (t := t).
  - intros lp t rest Hlp Hmic Haudio.
    destruct (Js.find (Space.isMicrophoneOf deviceId) (LocalParticipant.getAudioTracks lp))
      as [y|] eqn:Found.
    + (* already published before the first call *)
      apply find_some_in in Found as [Hin Hy].
      rewrite (publishMicrophone_duplicate _ _ _ _ _ _ lp y Hgm Hlp Hin Hy).
      eexists. now apply publishMicrophone_duplicate with (lp := lp) (t := y).
    + (* the first call publishes [t] *)
      assert (Hfirst : exists o c1,
                 Space.publishMicrophone getMicrophone s c deviceId (Js.Returns (t :: rest)) None
                 = (o, Space.afterPublish [Some t] s, c1)).
      { unfold Space.publishMicrophone. rewrite Hlp.
        destruct Hgm as [->| ->];
          unfold UserMedia.getMicrophone, UserMediaB.getMicrophone, Media.acquire;
          cbn [hd_error]; rewrite Found;
          destruct (User.userWantsMicMuted (Media.user c)); eauto. }
      destruct Hfirst as (o & c1 & ->).
      eexists.
      apply publishMicrophone_duplicate
        with (lp := LocalParticipant.published [t] lp) (t := t); try assumption.
      * unfold Space.afterPublish. cbn. now rewrite Hlp.
      * unfold LocalParticipant.getAudioTracks, LocalParticipant.published.
        cbn [LocalParticipant.tracks]. rewrite filter_app. apply in_or_app. right.
        cbn. unfold Sdk.isAudio. rewrite Haudio. now left.
Qed.

Lemma publishMicrophone_preconditions_witness :
  let '(_, s1, c1) :=
    Space.publishMicrophone UserMedia.getMicrophone Ex.joinedAlone Ex.ctx "usb-1"
      (Js.Returns [Ex.usbMic]) None in
  exists c2,
    Space.publishMicrophone UserMedia.getMicrophone s1 c1 "usb-1"
      (Js.Returns [Ex.usbMic]) None
    = (Js.Throws AlreadyPublished, s1, c2).
Proof.
  exact (proj2 (proj2 (publishMicrophone_preconditions UserMedia.getMicrophone
                         Ex.joinedAlone Ex.ctx "usb-1" (Js.Returns [Ex.usbMic]) None
                         (or_introl eq_refl)))
           Ex.me Ex.usbMic [] eq_refl eq_refl eq_refl).
Defined.

(** C2 as stated fails: the empty device id asks for the platform's
    default microphone, whose track reports its own device id; the
    duplicate check compares that id with the empty string, finds nothing,
    and the second call publishes again. *)
Lemma publishMicrophone_default_twice :
  ~ (let '(_, s1, c1) :=
       Space.publishMicrophone UserMedia.getMicrophone Ex.joinedAlone Ex.ctx ""
         (Js.Returns [Ex.defaultMic]) None in
     fst (fst (Space.publishMicrophone UserMedia.getMicrophone s1 c1 ""
                 (Js.Returns [Ex.defaultMicAgain]) None))
     = Js.Throws AlreadyPublished).
Proof. cbn. discriminate. Qed.

(** The same two calls, read off: both return, and the default microphone
    is published twice. *)
Example publishMicrophone_default_twice_trace :
  let '(o1, s1, c1) :=
    Space.publishMicrophone UserMedia.getMicrophone Ex.joinedAlone Ex.ctx ""
      (Js.Returns [Ex.defaultMic]) None in
  let '(o2, s2, c2) :=
    Space.publishMicrophone UserMedia.getMicrophone s1 c1 ""
      (Js.Returns [Ex.defaultMicAgain]) None in
  o1 = Js.Returns tt /\ o2 = Js.Returns tt
  /\ option_map LocalParticipant.getAudioTracks (Space.localParticipant s2)
     = Some [Ex.defaultMic; Ex.defaultMicAgain]
  /\ Media.calls c2
     = [GetUserMedia (Media.microphoneOptions ""); PublishTracks [Some Ex.defaultMic];
        GetUserMedia (Media.microphoneOptions ""); PublishTracks [Some Ex.defaultMicAgain]].
Proof. cbn. repeat split. Qed.

(* ================================================================== *)
(** * The subscription resort *)

Section StablePartition.
Context {A : Type} (test : A -> bool).

Lemma stablePartition_filters l :
  stablePartition test l (filter test l) (filter (fun x => negb (test x)) l).
Proof.
  induction l as [|x l IH]; cbn; [constructor|].
  destruct (test x) eqn:T; cbn; now constructor.
Qed.

(** The two parts are determined by the list. *)
Lemma stablePartition_unique l yes no :
  stablePartition test l yes no ->
  yes = filter test l /\ no = filter (fun x => negb (test x)) l.
Proof.
  induction 1 as [|x l yes no T _ [-> ->]|x l yes no T _ [-> ->]]; cbn;
    rewrite ?T; cbn; auto.
Qed.

Lemma stablePartition_sides l yes no :
  stablePartition test l yes no ->
  Forall (fun x => test x = true) yes /\ Forall (fun x => test x = false) no.
Proof.
  induction 1 as [|x l yes no T _ [IHy IHn]|x l yes no T _ [IHy IHn]]; auto.
Qed.

Lemma stablePartition_permutation l yes no :
  stablePartition test l yes no -> Permutation (yes ++ no) l.
Proof.
  induction 1 as [|x l yes no T _ IH|x l yes no T _ IH]; cbn.
  - constructor.
  - now constructor.
  - symmetry. apply Permutation_cons_app. now symmetry.
Qed.

(** Filtering the joined parts gives the parts back: inside each part the
    order is the one the list had. *)
Lemma stablePartition_order l yes no :
  stablePartition test l yes no ->
  filter test (yes ++ no) = filter test l
  /\ filter (fun x => negb (test x)) (yes ++ no) = filter (fun x => negb (test x)) l.
Proof.
  intros H. destruct (stablePartition_sides _ _ _ H) as [Hy Hn].
  destruct (stablePartition_unique _ _ _ H) as [Ey En].
  rewrite !filter_app.
  assert (Keep : forall (g : A -> bool) k, Forall (fun x => g x = true) k -> filter g k = k).
  { intros g k F. induction F as [|x k Hx _ IH]; cbn; [reflexivity|]. now rewrite Hx, IH. }
  assert (Drop : forall (g : A -> bool) k, Forall (fun x => g x = false) k -> filter g k = []).
  { intros g k F. induction F as [|x k Hx _ IH]; cbn; [reflexivity|]. now rewrite Hx. }
  rewrite (Keep test yes Hy), (Drop test no Hn), app_nil_r.
  rewrite (Drop (fun x => negb (test x)) yes), (Keep (fun x => negb (test x)) no).
  - now split.
  - eapply Forall_impl; [|exact Hn]. cbn. now intros x ->.
  - eapply Forall_impl; [|exact Hy]. cbn. now intros x ->.
Qed.

End StablePartition.

Lemma replaceChanged_ids changed old :
  ids (Space.replaceChanged changed old) = ids old.
Proof.
  unfold Space.replaceChanged. rewrite map_map. apply map_ext_in.
  intros q _. destruct (Space.sameConnection changed q) eqn:E; [|reflexivity].
  symmetry. now apply sameConnection_true.
Qed.

(** When the roster holds the very participant the event names, the
    [map] changes nothing. *)
Lemma replaceChanged_same changed old :
  (forall q, In q old -> Space.sameConnection changed q = true -> q = changed) ->
  Space.replaceChanged changed old = old.
Proof.
  intros H. unfold Space.replaceChanged. rewrite <- (map_id old) at 2.
  apply map_ext_in. intros q Hq.
  destruct (Space.sameConnection changed q) eqn:E; [|reflexivity].
  symmetry. now apply H.
Qed.

Lemma subscription_event_roster isSubscribed changed track s s1 :
  s1 = Space.handleParticipantTrackSubscribed isSubscribed (Remote changed) track s
  \/ s1 = Space.handleParticipantTrackUnsubscribed isSubscribed (Remote changed) track s ->
  Space.remoteParticipants s1
  = Space.reorderBySubscription isSubscribed changed (Space.remoteParticipants s).
Proof.
  intros [->| ->];
    unfold Space.handleParticipantTrackSubscribed, Space.handleParticipantTrackUnsubscribed.
  - destruct (_ && _); reflexivity.
  - destruct (Space.isScreenshare track); reflexivity.
Qed.

(** C4.  After a track-subscribed or track-unsubscribed event for a remote
    participant the roster is the stable partition, by subscription
    status, of the previous roster (in which the entry of the participant
    named by the event is the event's participant): the subscribed
    participants come first, the unsubscribed after them, and inside each
    part the order is the previous one. *)
Theorem subscription_resort_stable_partition
    (s s1 : Space.State) (isSubscribed : RemoteParticipant.t -> bool)
    (changed : RemoteParticipant.t) (track : Sdk.Track) :
  s1 = Space.handleParticipantTrackSubscribed isSubscribed (Remote changed) track s
  \/ s1 = Space.handleParticipantTrackUnsubscribed isSubscribed (Remote changed) track s ->
  let previous := Space.replaceChanged changed (Space.remoteParticipants s) in
  let roster := Space.remoteParticipants s1 in
  (exists subscribed unsubscribed,
      stablePartition isSubscribed previous subscribed unsubscribed
      /\ roster = subscribed ++ unsubscribed
      /\ Forall (fun p => isSubscribed p = true) subscribed
      /\ Forall (fun p => isSubscribed p = false) unsubscribed)
  /\ (filter isSubscribed roster = filter isSubscribed previous
      /\ filter (fun p => negb (isSubscribed p)) roster
         = filter (fun p => negb (isSubscribed p)) previous)
  /\ Permutation roster previous
  /\ ids previous = ids (Space.remoteParticipants s)
  /\ ((forall q, In q (Space.remoteParticipants s) ->
                 Space.sameConnection changed q = true -> q = changed) ->
      previous = Space.remoteParticipants s).
Proof.
  intros Hev previous roster.
  assert (Hroster : roster = filter isSubscribed previous
                             ++ filter (fun p => negb (isSubscribed p)) previous)
    by (unfold roster; now rewrite (subscription_event_roster _ _ _ _ _ Hev)).
  pose proof (stablePartition_filters isSubscribed previous) as SP.
  destruct (stablePartition_sides _ _ _ _ SP) as [Hy Hn].
  split; [|split; [|split; [|split]]].
  - eauto 10.
  - rewrite Hroster. exact (stablePartition_order _ _ _ _ SP).
  - rewrite Hroster. exact (stablePartition_permutation _ _ _ _ SP).
  - apply replaceChanged_ids.
  - apply replaceChanged_same.
Qed.

Lemma subscription_resort_stable_partition_witness :
  Permutation
    (Space.remoteParticipants
       (Space.handleParticipantTrackSubscribed (Ex.subscribedTo ["p2"; "p4"])
          (Remote Ex.p4) Ex.camera Ex.crowd))
    [Ex.p1; Ex.p2; Ex.p3; Ex.p4; Ex.p5].
Proof.
  exact (proj1 (proj2 (proj2
    (subscription_resort_stable_partition Ex.crowd _ (Ex.subscribedTo ["p2"; "p4"])
       Ex.p4 Ex.camera (or_introl eq_refl))))).
Defined.

(** [p2] is subscribed already, [p4] becomes subscribed: both go to the
    front in roster order, the others follow in roster order. *)
Example subscription_resort_run :
  ids (Space.remoteParticipants
         (Space.handleParticipantTrackSubscribed (Ex.subscribedTo ["p2"; "p4"])
            (Remote Ex.p4) Ex.camera Ex.crowd))
  = ["p2"; "p4"; "p1"; "p3"; "p5"].
Proof. reflexivity. Qed.

(* ================================================================== *)
(** * Uniqueness of connection identifiers *)

Lemma joined_present newParticipant old :
  In (RemoteParticipant.connectionId newParticipant) (ids old) ->
  Space.joined newParticipant old = old.
Proof.
  intros Hin. apply in_map_iff in Hin as (q & E & Hq).
  unfold Space.joined.
  destruct (find_finds (Space.sameConnection newParticipant) old q Hq) as (y & ->);
    [|reflexivity].
  unfold Space.sameConnection. rewrite E. apply String.eqb_refl.
Qed.

Lemma joined_absent newParticipant old :
  ~ In (RemoteParticipant.connectionId newParticipant) (ids old) ->
  Space.joined newParticipant old = old ++ [newParticipant].
Proof.
  intros Hout. unfold Space.joined.
  destruct (Js.find _ old) as [q|] eqn:F; [|reflexivity].
  apply find_some_in in F as [Hq Same]. exfalso. apply Hout.
  apply in_map_iff. exists q. split; [now apply sameConnection_true | exact Hq].
Qed.

Lemma joined_unique newParticipant old :
  uniqueIds old -> uniqueIds (Space.joined newParticipant old).
Proof.
  unfold uniqueIds. intros U.
  destruct (in_dec string_dec (RemoteParticipant.connectionId newParticipant) (ids old))
    as [Hin|Hout].
  - now rewrite joined_present.
  - rewrite joined_absent by assumption. rewrite map_app. cbn [map].
    eapply Permutation_NoDup; [apply Permutation_cons_append|].
    now constructor.
Qed.

Lemma filter_unique keep roster :
  uniqueIds roster -> uniqueIds (filter keep roster).
Proof.
  unfold uniqueIds. induction roster as [|p r IH]; cbn; [auto|].
  intros U. inversion U as [|x l Hout U']; subst.
  destruct (keep p); cbn; [|now apply IH].
  constructor; [|now apply IH].
  intros Hin. apply Hout. apply in_map_iff in Hin as (q & E & Hq).
  apply filter_In in Hq as [Hq _]. apply in_map_iff. eauto.
Qed.

Lemma reorderBySubscription_unique isSubscribed changed old :
  uniqueIds old -> uniqueIds (Space.reorderBySubscription isSubscribed changed old).
Proof.
  unfold uniqueIds, Space.reorderBySubscription. intros U.
  pose proof (stablePartition_permutation _ _ _ _
                (stablePartition_filters isSubscribed (Space.replaceChanged changed old))) as P.
  eapply Permutation_NoDup.
  - symmetry. apply Permutation_map. exact P.
  - now rewrite replaceChanged_ids.
Qed.

Lemma displayNameChanged_ids updated old :
  ids (Space.displayNameChanged updated old) = ids old.
Proof. apply writeFirst_map. reflexivity. Qed.

Create HintDb roster.
#[local] Hint Resolve joined_unique filter_unique activeSpeakerChanged_unique
  reorderBySubscription_unique : roster.

Section Invariant.

Variable MAX_PARTICIPANTS_PER_PAGE : Z.

(** Every handler bound in [joinSpace] keeps the identifiers unique. *)
Lemma on_unique e s :
  uniqueIds (Space.remoteParticipants s) ->
  uniqueIds (Space.remoteParticipants (Space.on MAX_PARTICIPANTS_PER_PAGE e s)).
Proof.
  intros U.
  destruct e as [p|p|changes|b|p t|sub p t|p t|sub p t|p]; cbn.
  - auto with roster.
  - unfold Space.departed. auto with roster.
  - auto with roster.
  - exact U.
  - unfold Space.handleParticipantTrackPublished. now destruct (_ && _).
  - destruct p as [l|r].
    + unfold Space.handleParticipantTrackSubscribed. now destruct (_ && _).
    + rewrite (subscription_event_roster sub r t s _ (or_introl eq_refl)).
      auto with roster.
  - unfold Space.handleParticipantTrackUnpublished. now destruct (Space.isScreenshare t).
  - destruct p as [l|r].
    + unfold Space.handleParticipantTrackUnsubscribed. now destruct (Space.isScreenshare t).
    + rewrite (subscription_event_roster sub r t s _ (or_intror eq_refl)).
      auto with roster.
  - destruct p as [l|r]; cbn; [exact U|].
    unfold uniqueIds. now rewrite displayNameChanged_ids.
Qed.

Lemma step_unique a s :
  uniqueIds (Space.remoteParticipants s) ->
  uniqueIds (Space.remoteParticipants (Space.step MAX_PARTICIPANTS_PER_PAGE s a)).
Proof.
  intros U. destruct a as [endsAt constructed|sp answer|e|ra la|ts]; cbn.
  - unfold Space.joinSpaceBegin. destruct constructed as [sp|err]; [|exact U].
    destruct endsAt as [n|]; [destruct (n =? 0)|]; exact U.
  - unfold Space.joinSpaceSettle. destruct answer; exact U.
  - now apply on_unique.
  - unfold Space.leaveSpace. destruct (Space.leaveSpaceTry s ra la). cbn. constructor.
  - exact U.
Qed.

Lemma run_unique actions s :
  uniqueIds (Space.remoteParticipants s) ->
  uniqueIds (Space.remoteParticipants (Space.run MAX_PARTICIPANTS_PER_PAGE s actions)).
Proof.
  revert s. induction actions as [|a r IH]; intros s U; cbn; [exact U|].
  apply IH. now apply step_unique.
Qed.

End Invariant.

(** C5.  Connection identifiers are unique within the roster in every
    state the provider reaches.  The participant-joined handler is
    idempotent: a join event whose connection id is already in the roster
    leaves the roster as it is.  Every other thing that writes the roster
    (the other handlers, [leaveSpace]) keeps the identifiers unique. *)
Theorem connection_ids_unique (MAX_PARTICIPANTS_PER_PAGE : Z) :
  (forall s, Space.reachable MAX_PARTICIPANTS_PER_PAGE s ->
             uniqueIds (Space.remoteParticipants s))
  /\ (forall newParticipant s,
        In (RemoteParticipant.connectionId newParticipant)
           (ids (Space.remoteParticipants s)) ->
        Space.remoteParticipants (Space.handleParticipantJoined newParticipant s)
        = Space.remoteParticipants s)
  /\ (forall a s,
        uniqueIds (Space.remoteParticipants s) ->
        uniqueIds (Space.remoteParticipants
                     (Space.step MAX_PARTICIPANTS_PER_PAGE s a))).
Proof.
  split; [|split].
  - intros s (actions & ->). apply run_unique. constructor.
  - intros p s Hin. cbn. now apply joined_present.
  - intros a s. apply step_unique.
Qed.

Lemma connection_ids_unique_witness :
  uniqueIds (Space.remoteParticipants Ex.crowd)
  /\ Space.remoteParticipants (Space.handleParticipantJoined Ex.p3 Ex.crowd)
     = Space.remoteParticipants Ex.crowd.
Proof.
  destruct (connection_ids_unique 6) as (Reach & Idem & _).
  split.
  - apply Reach.
    exists ([Space.JoinBegin (Some 1700000000) (Js.Returns Ex.theSpace);
             Space.JoinSettle Ex.theSpace (Js.Returns Ex.me)]
            ++ map (fun p => Space.Deliver (Space.ParticipantJoined p))
                 [Ex.p1; Ex.p2; Ex.p3; Ex.p4; Ex.p5]).
    reflexivity.
  - apply Idem. cbn. auto 10.
Defined.

(** Join, then leave: the scenario of the specification. *)
Example roster_join_then_leave :
  let s1 := Space.handleParticipantJoined Ex.p1 Ex.joinedAlone in
  ids (Space.remoteParticipants s1) = ["p1"]
  /\ Space.remoteParticipants (Space.handleParticipantLeft Ex.p1 s1) = [].
Proof. split; reflexivity. Qed.

(* ================================================================== *)
(** * Active-speaker promotion: runs *)


(** Page size 3: the last visible slot is index 2.  [p4] stands at index 3
    and is moved to the front; [p2] stands at index 1 and nothing moves. *)
Example promotion_beyond_page :
  ids (Space.remoteParticipants
         (Space.handleActiveSpeakerChanged 3 [Ex.speaks Ex.p4] Ex.crowd))
  = ["p4"; "p1"; "p2"; "p3"; "p5"].
Proof. reflexivity. Qed.

Example promotion_within_page :
  Space.handleActiveSpeakerChanged 3 [Ex.speaks Ex.p2] Ex.crowd = Ex.crowd.
Proof. reflexivity. Qed.

(** A batch is worked through in order: [p4] is moved to the front, then
    [p5] is, and [p4] ends at index 1. *)
Example promotion_batch_in_order :
  ids (Space.remoteParticipants
         (Space.handleActiveSpeakerChanged 3 [Ex.speaks Ex.p4; Ex.speaks Ex.p5] Ex.crowd))
  = ["p5"; "p4"; "p1"; "p2"; "p3"].
Proof. reflexivity. Qed.

(** The index that counts is the one at the moment the change is worked:
    [p3] starts at index 2; after [p5] and [p4] went to the front it
    stands at index 4. *)
Example promotion_batch_current_index :
  ids (Space.remoteParticipants
         (Space.handleActiveSpeakerChanged 4
            [Ex.speaks Ex.p5; Ex.speaks Ex.p4; Ex.speaks Ex.p3] Ex.crowd))
  = ["p3"; "p4"; "p5"; "p1"; "p2"].
Proof. reflexivity. Qed.

(** The local participant in a batch is passed over. *)
Example promotion_skips_local :
  Space.handleActiveSpeakerChanged 3 [{| participant := Local Ex.me |}] Ex.crowd
  = Ex.crowd.
Proof. reflexivity. Qed.

(** A speaker who is not in the roster has index -1, below the threshold
    for every page size of at least 1: nothing moves. *)
Lemma promotion_absent_speaker MAX_PARTICIPANTS_PER_PAGE roster speaker :
  1 <= MAX_PARTICIPANTS_PER_PAGE ->
  ~ In (RemoteParticipant.connectionId speaker) (ids roster) ->
  Space.promote MAX_PARTICIPANTS_PER_PAGE roster {| participant := Remote speaker |}
  = roster.
Proof.
  intros Hmax Hout.
  destruct (findIndex_cases (Space.sameConnection speaker) roster)
    as [[E _]|(n & q & _ & Hn & Fq & _)].
  - rewrite (promote_absent _ _ _ E).
    destruct (Z.geb_spec (-1) (MAX_PARTICIPANTS_PER_PAGE - 1)); [lia | reflexivity].
  - exfalso. apply Hout. apply in_map_iff. exists q. split.
    + now apply sameConnection_true.
    + eapply nth_error_In; eassumption.
Qed.

(* ================================================================== *)
(** * The microphone level *)

Section LevelFacts.

Variable log10 : float -> float.
Variable pow : float -> float -> float.
Variable getFloatTimeDomainData : Media.AnalyserNode -> nat -> list float.

(** Without an analyser both copies return [null]. *)
Lemma getActiveMicrophoneLevel_no_analyser m :
  Media.localAudioAnalyser m = None ->
  MicrophoneLevel.getActiveMicrophoneLevel log10 pow getFloatTimeDomainData m = None
  /\ MicrophoneLevel.getActiveMicrophoneLevelB log10 pow getFloatTimeDomainData m = None.
Proof.
  intros H.
  unfold MicrophoneLevel.getActiveMicrophoneLevel, MicrophoneLevel.getActiveMicrophoneLevelB.
  now rewrite H.
Qed.

End LevelFacts.

(** In binary64 the mean of 2048 equal squares need not be the square:
    with every sample 1 + 2^-23 and exact squaring, the number handed to
    [log10] for the average is not the one handed to it for the peak. *)
Example constant_buffer_mean_is_not_peak :
  let sample := (1 + 0x1p-23)%float in
  let '(sum, peak) :=
    fold_left (MicrophoneLevel.loopStep MicrophoneLevel.powExact)
      (repeat sample 2048) (0%float, 0%float) in
  PrimFloat.eqb peak (PrimFloat.mul sample sample) = true
  /\ PrimFloat.eqb (PrimFloat.div sum (MicrophoneLevel.lengthNumber (repeat sample 2048))) peak
     = false.
Proof. vm_compute. split; reflexivity. Qed.

(* ================================================================== *)
(** * More on the roster handlers *)

Lemma removeAt_permutation {A : Type} (l : list A) n x :
  nth_error l n = Some x -> Permutation (x :: Js.removeAt n l) l.
Proof.
  revert n. induction l as [|a r IH]; intros [|n]; cbn; try discriminate.
  - intros [= ->]. reflexivity.
  - intros H. etransitivity; [apply perm_swap|]. constructor. now apply IH.
Qed.

Lemma departed_absent leaving old :
  ~ In (RemoteParticipant.connectionId leaving) (ids old) ->
  Space.departed leaving old = old.
Proof.
  unfold Space.departed. induction old as [|q r IH]; cbn; [reflexivity|].
  intros Hout. destruct (Space.sameConnection leaving q) eqn:E; cbn.
  - exfalso. apply Hout. left. now apply sameConnection_true.
  - f_equal. apply IH. tauto.
Qed.

(** X1.  After a participant-left event no roster entry has the leaving
    connection id (every entry with it is removed, were there several);
    the entries with another id are exactly the ones there were; and when
    the id was not in the roster, the roster is what it was. *)
Theorem participant_left_removes (leaving : RemoteParticipant.t) (s : Space.State) :
  let before := Space.remoteParticipants s in
  let after := Space.remoteParticipants (Space.handleParticipantLeft leaving s) in
  ~ In (RemoteParticipant.connectionId leaving) (ids after)
  /\ (forall q, In q after
                <-> In q before
                    /\ RemoteParticipant.connectionId q
                       <> RemoteParticipant.connectionId leaving)
  /\ (~ In (RemoteParticipant.connectionId leaving) (ids before) -> after = before).
Proof.
  cbn. unfold Space.departed. split; [|split].
  - intros Hin. apply in_map_iff in Hin as (q & E & Hq).
    apply filter_In in Hq as [_ Hq]. apply negb_true_iff, sameConnection_false in Hq.
    congruence.
  - intros q. rewrite filter_In, negb_true_iff. split; intros [Hq H]; split; trivial.
    + now apply sameConnection_false.
    + now apply String.eqb_neq.
  - apply departed_absent.
Qed.

Lemma participant_left_removes_witness :
  Space.remoteParticipants (Space.handleParticipantLeft (Ex.remote "p9") Ex.crowd)
  = Space.remoteParticipants Ex.crowd.
Proof.
  apply (proj2 (proj2 (participant_left_removes (Ex.remote "p9") Ex.crowd))).
  cbn. intuition discriminate.
Defined.

(** X2.  A participant who joins and then leaves: when the connection id
    was not in the roster before, the roster is back to what it was. *)
Theorem join_then_leave_restores (p : RemoteParticipant.t) (s : Space.State) :
  ~ In (RemoteParticipant.connectionId p) (ids (Space.remoteParticipants s)) ->
  Space.remoteParticipants
    (Space.handleParticipantLeft p (Space.handleParticipantJoined p s))
  = Space.remoteParticipants s.
Proof.
  intros Hout. cbn. rewrite joined_absent by assumption.
  unfold Space.departed. rewrite filter_app. cbn.
  rewrite sameConnection_refl. cbn. rewrite app_nil_r.
  now apply departed_absent.
Qed.

Lemma join_then_leave_restores_witness :
  Space.remoteParticipants
    (Space.handleParticipantLeft (Ex.remote "p9")
       (Space.handleParticipantJoined (Ex.remote "p9") Ex.crowd))
  = Space.remoteParticipants Ex.crowd.
Proof.
  apply join_then_leave_restores. cbn. intuition discriminate.
Defined.

Lemma writeFirst_absent {A : Type} (f : A -> bool) (g : A -> A) (l : list A) :
  (forall x, In x l -> f x = false) -> Space.writeFirst f g l = l.
Proof.
  induction l as [|a r IH]; cbn; [reflexivity|]. intros H.
  rewrite (H a) by now left. f_equal. apply IH. auto.
Qed.

Lemma writeFirst_others {A : Type} (f : A -> bool) (g : A -> A) (l : list A) (x : A) :
  f x = false -> (forall y, f y = true -> f (g y) = true) ->
  (In x (Space.writeFirst f g l) <-> In x l).
Proof.
  intros Fx Hg. induction l as [|a r IH]; cbn; [tauto|].
  destruct (f a) eqn:Fa; cbn.
  - split; intros [E|H]; auto; exfalso; subst.
    + rewrite (Hg a Fa) in Fx. discriminate.
    + congruence.
  - rewrite IH. tauto.
Qed.

Lemma writeFirst_written {A : Type} (f : A -> bool) (g : A -> A) (l : list A) :
  (exists x, In x l /\ f x = true) ->
  exists y, In y l /\ f y = true /\ In (g y) (Space.writeFirst f g l).
Proof.
  induction l as [|a r IH]; cbn; intros (x & Hx & Fx); [contradiction|].
  destruct (f a) eqn:Fa.
  - exists a. cbn. auto.
  - destruct Hx as [->|Hx]; [congruence|].
    destruct IH as (y & Hy & Fy & Hg); [eauto|]. exists y. cbn. auto.
Qed.

(** X3.  A display-name event never changes who is in the roster or in
    which order: the connection ids stay as they are, and the entries of
    other connections are untouched.  For a remote participant in the
    roster, an entry with that connection id now carries the new name; for
    one not in the roster nothing changes.  For the local participant the
    roster is untouched and the name is written only if a local
    participant is held. *)
Theorem display_name_changed (s : Space.State) :
  (forall updated : RemoteParticipant.t,
     let before := Space.remoteParticipants s in
     let after := Space.remoteParticipants
                    (Space.handleParticipantDisplayNameChanged (Remote updated) s) in
     ids after = ids before
     /\ (forall q, RemoteParticipant.connectionId q
                   <> RemoteParticipant.connectionId updated ->
                   (In q after <-> In q before))
     /\ (In (RemoteParticipant.connectionId updated) (ids before) ->
         exists q, In q after
                   /\ RemoteParticipant.connectionId q
                      = RemoteParticipant.connectionId updated
                   /\ RemoteParticipant.displayName q
                      = RemoteParticipant.displayName updated)
     /\ (~ In (RemoteParticipant.connectionId updated) (ids before) -> after = before))
  /\ (forall updated : LocalParticipant.t,
        let s' := Space.handleParticipantDisplayNameChanged (Local updated) s in
        Space.remoteParticipants s' = Space.remoteParticipants s
        /\ option_map LocalParticipant.displayName (Space.localParticipant s')
           = option_map (fun _ => LocalParticipant.displayName updated)
               (Space.localParticipant s)
        /\ option_map LocalParticipant.connectionId (Space.localParticipant s')
           = option_map LocalParticipant.connectionId (Space.localParticipant s)).
Proof.
  split.
  - intros updated. cbn. split; [apply displayNameChanged_ids|]. split; [|split].
    + intros q Hq. apply writeFirst_others.
      * now apply String.eqb_neq.
      * intros y Hy. exact Hy.
    + intros Hin. apply in_map_iff in Hin as (x & E & Hx).
      destruct (writeFirst_written (Space.sameConnection updated)
                  (RemoteParticipant.withDisplayName (RemoteParticipant.displayName updated))
                  (Space.remoteParticipants s)) as (y & Hy & Fy & Hg).
      { exists x. split; [exact Hx|]. unfold Space.sameConnection. rewrite E.
        apply String.eqb_refl. }
      eexists. split; [exact Hg|]. cbn. split; [|reflexivity].
      now apply sameConnection_true.
    + intros Hout. apply writeFirst_absent. intros x Hx.
      destruct (Space.sameConnection updated x) eqn:E; [|reflexivity].
      exfalso. apply Hout. apply in_map_iff. exists x. split; [|exact Hx].
      now apply sameConnection_true.
  - intros updated. cbn. destruct (Space.localParticipant s); cbn; auto.
Qed.

Lemma display_name_changed_witness :
  exists q,
    In q (Space.remoteParticipants
            (Space.handleParticipantDisplayNameChanged
               (Remote {| RemoteParticipant.connectionId := "p3";
                          RemoteParticipant.displayName := "Carla" |}) Ex.crowd))
    /\ RemoteParticipant.connectionId q = "p3"
    /\ RemoteParticipant.displayName q = "Carla".
Proof.
  apply (proj1 (proj2 (proj2 (proj1 (display_name_changed Ex.crowd)
           {| RemoteParticipant.connectionId := "p3";
              RemoteParticipant.displayName := "Carla" |})))).
  cbn. auto 10.
Defined.

Section PromotionMore.

Variable MAX_PARTICIPANTS_PER_PAGE : Z.

Lemma promote_permutes cur change :
  1 <= MAX_PARTICIPANTS_PER_PAGE ->
  Permutation (ids (Space.promote MAX_PARTICIPANTS_PER_PAGE cur change)) (ids cur).
Proof.
  intros Hmax. destruct change as [[l|speaker]]; [reflexivity|].
  destruct (findIndex_cases (Space.sameConnection speaker) cur)
    as [[E None]|(n & q & E & Hn & Fq & _)].
  - rewrite promotion_absent_speaker; [reflexivity | exact Hmax|].
    now apply absent_not_in.
  - rewrite (promote_found _ _ _ _ E).
    destruct (Z.of_nat n >=? MAX_PARTICIPANTS_PER_PAGE - 1); [|reflexivity].
    cbn [map]. rewrite removeAt_map. apply removeAt_permutation.
    rewrite nth_error_map, Hn. cbn. f_equal. now apply sameConnection_true.
Qed.

End PromotionMore.

(** X4.  With a page size of at least 1, an active-speaker batch only
    reorders: the connection ids in the roster afterwards are those before
    (speakers who are not in the roster, and the local participant, are
    passed over), and the roster keeps its length. *)
Theorem active_speakers_only_reorder
    (MAX_PARTICIPANTS_PER_PAGE : Z) (changes : list ActiveSpeaker) (s : Space.State) :
  1 <= MAX_PARTICIPANTS_PER_PAGE ->
  let before := Space.remoteParticipants s in
  let after :=
    Space.remoteParticipants
      (Space.handleActiveSpeakerChanged MAX_PARTICIPANTS_PER_PAGE changes s) in
  Permutation (ids after) (ids before)
  /\ List.length after = List.length before.
Proof.
  intros Hmax. cbn.
  assert (P : forall old,
             Permutation (ids (Space.activeSpeakerChanged MAX_PARTICIPANTS_PER_PAGE changes old))
                         (ids old)).
  { unfold Space.activeSpeakerChanged.
    induction changes as [|c r IH]; intros old; cbn [fold_left]; [reflexivity|].
    etransitivity; [apply IH|]. now apply promote_permutes. }
  split; [apply P|].
  rewrite <- (length_map RemoteParticipant.connectionId),
          <- (length_map RemoteParticipant.connectionId (Space.remoteParticipants s)).
  apply Permutation_length, P.
Qed.

Lemma active_speakers_only_reorder_witness :
  List.length
    (Space.remoteParticipants
       (Space.handleActiveSpeakerChanged 3
          [Ex.speaks Ex.p5; Ex.speaks (Ex.remote "p9"); Ex.speaks Ex.p4] Ex.crowd))
  = 5%nat.
Proof.
  exact (proj2 (active_speakers_only_reorder 3
                  [Ex.speaks Ex.p5; Ex.speaks (Ex.remote "p9"); Ex.speaks Ex.p4]
                  Ex.crowd ltac:(lia))).
Defined.

(** X5.  The page size matters for that: with a page size below 1 the
    index -1 of a speaker who is not in the roster passes the test, and
    the handler drops the last roster entry and puts the stranger first. *)
Theorem active_speaker_stranger_small_page
    (MAX_PARTICIPANTS_PER_PAGE : Z) (speaker : RemoteParticipant.t) (s : Space.State) :
  MAX_PARTICIPANTS_PER_PAGE <= 0 ->
  ~ In (RemoteParticipant.connectionId speaker) (ids (Space.remoteParticipants s)) ->
  Space.remoteParticipants
    (Space.handleActiveSpeakerChanged MAX_PARTICIPANTS_PER_PAGE
       [{| participant := Remote speaker |}] s)
  = speaker :: removelast (Space.remoteParticipants s).
Proof.
  intros Hmax Hout.
  change (Space.promote MAX_PARTICIPANTS_PER_PAGE (Space.remoteParticipants s)
            {| participant := Remote speaker |}
          = speaker :: removelast (Space.remoteParticipants s)).
  destruct (findIndex_cases (Space.sameConnection speaker) (Space.remoteParticipants s))
    as [[E _]|(n & q & _ & Hn & Fq & _)].
  - rewrite (promote_absent _ _ _ E).
    destruct (Z.geb_spec (-1) (MAX_PARTICIPANTS_PER_PAGE - 1)); [|lia].
    f_equal. generalize (Space.remoteParticipants s). clear.
    induction l as [|a [|b r] IH]; try reflexivity.
    cbn [List.length Nat.pred Js.removeAt removelast] in *. now rewrite IH.
  - exfalso. apply Hout. apply in_map_iff. exists q. split.
    + now apply sameConnection_true.
    + eapply nth_error_In; eassumption.
Qed.

Lemma active_speaker_stranger_small_page_witness :
  ids (Space.remoteParticipants
         (Space.handleActiveSpeakerChanged 0 [Ex.speaks (Ex.remote "p9")] Ex.crowd))
  = ["p9"; "p1"; "p2"; "p3"; "p4"].
Proof.
  refine (eq_trans
            (f_equal ids (active_speaker_stranger_small_page 0 (Ex.remote "p9") Ex.crowd _ _))
            _); [lia | cbn; intuition discriminate | reflexivity].
Defined.

Lemma replaceChanged_idempotent changed old :
  Space.replaceChanged changed (Space.replaceChanged changed old)
  = Space.replaceChanged changed old.
Proof.
  unfold Space.replaceChanged. rewrite map_map. apply map_ext. intros q.
  destruct (Space.sameConnection changed q) eqn:E; [|now rewrite E].
  now rewrite sameConnection_refl.
Qed.

Lemma replaceChanged_filter keep changed old :
  Space.replaceChanged changed (filter keep (Space.replaceChanged changed old))
  = filter keep (Space.replaceChanged changed old).
Proof.
  apply replaceChanged_same. intros q Hq Same.
  apply filter_In in Hq as [Hq _]. unfold Space.replaceChanged in Hq.
  apply in_map_iff in Hq as (x & <- & _).
  destruct (Space.sameConnection changed x) eqn:E; [reflexivity | congruence].
Qed.

(** X6.  The subscription resort is idempotent: a second event for the
    same participant, with the subscriptions unchanged, leaves the roster
    as the first one made it. *)
Theorem subscription_resort_idempotent
    (isSubscribed : RemoteParticipant.t -> bool)
    (changed : RemoteParticipant.t) (roster : list RemoteParticipant.t) :
  Space.reorderBySubscription isSubscribed changed
    (Space.reorderBySubscription isSubscribed changed roster)
  = Space.reorderBySubscription isSubscribed changed roster.
Proof.
  unfold Space.reorderBySubscription.
  set (u := Space.replaceChanged changed roster).
  assert (E : Space.replaceChanged changed
                (filter isSubscribed u ++ filter (fun p => negb (isSubscribed p)) u)
              = filter isSubscribed u ++ filter (fun p => negb (isSubscribed p)) u).
  { unfold Space.replaceChanged at 1. rewrite map_app.
    fold (Space.replaceChanged changed (filter isSubscribed u)).
    fold (Space.replaceChanged changed (filter (fun p => negb (isSubscribed p)) u)).
    unfold u. now rewrite !replaceChanged_filter. }
  rewrite E.
  destruct (stablePartition_order isSubscribed u _ _ (stablePartition_filters isSubscribed u))
    as [-> ->].
  reflexivity.
Qed.

(** X7.  The two memoized values agree: [participantCount] is the number
    of [connectionIds], the local participant's id, if there is one, being
    the first, followed by the roster's ids in roster order. *)
Theorem participant_count_is_number_of_ids (s : Space.State) :
  List.length (Space.connectionIds s) = Space.participantCount s
  /\ skipn (Space.participantCount s - List.length (Space.remoteParticipants s))
       (Space.connectionIds s)
     = ids (Space.remoteParticipants s).
Proof.
  unfold Space.connectionIds, Space.participantCount.
  destruct (Space.localParticipant s) as [l|]; cbn [List.length app];
    rewrite ?length_map; split; try reflexivity.
  - replace (1 + List.length (Space.remoteParticipants s)
             - List.length (Space.remoteParticipants s))%nat with 1%nat by lia.
    reflexivity.
  - now rewrite Nat.sub_diag.
Qed.

(** X8.  What the SDK's events never touch: no event changes the space
    handle, the joined flag, the join error, the expiry or the screen-share
    error; only the broadcast event changes the broadcasting flag; and the
    roster events (joined, left, active speakers, broadcast, display name)
    leave the screen-share slot alone, so a sharer who leaves stays in the
    slot until the unpublish event comes. *)
Theorem events_frame (MAX_PARTICIPANTS_PER_PAGE : Z) (e : Space.SpaceEvent) (s : Space.State) :
  let s' := Space.on MAX_PARTICIPANTS_PER_PAGE e s in
  (Space.space s' = Space.space s
   /\ Space.isJoined s' = Space.isJoined s
   /\ Space.joinError s' = Space.joinError s
   /\ Space.spaceEndsAt s' = Space.spaceEndsAt s
   /\ Space.screenShareError s' = Space.screenShareError s)
  /\ ((forall b, e <> Space.BroadcastStateChanged b) ->
      Space.isBroadcasting s' = Space.isBroadcasting s)
  /\ ((forall p t, e <> Space.ParticipantTrackPublished p t) ->
      (forall sub p t, e <> Space.ParticipantTrackSubscribed sub p t) ->
      (forall p t, e <> Space.ParticipantTrackUnpublished p t) ->
      (forall sub p t, e <> Space.ParticipantTrackUnsubscribed sub p t) ->
      Space.screenShareTrack s' = Space.screenShareTrack s
      /\ Space.participantScreenSharing s' = Space.participantScreenSharing s).
Proof.
  assert (Shape : forall A B C : Prop, A -> B -> C -> A /\ B /\ C) by tauto.
  destruct e as [p|p|changes|b|p t|sub p t|p t|sub p t|p]; cbn;
    [ | | | | unfold Space.handleParticipantTrackPublished; destruct (_ && _)
      | unfold Space.handleParticipantTrackSubscribed; destruct p; destruct (_ && _)
      | unfold Space.handleParticipantTrackUnpublished; destruct (Space.isScreenshare t)
      | unfold Space.handleParticipantTrackUnsubscribed; destruct p;
        destruct (Space.isScreenshare t)
      | destruct p ];
    cbn; apply Shape; try (repeat split; reflexivity); try (intros; reflexivity).
  all: try (intros _; split; reflexivity).
  all: try (intros H; exfalso; eapply H; reflexivity).
  all: try (intros _ H; exfalso; eapply H; reflexivity).
  all: try (intros _ _ H; exfalso; eapply H; reflexivity).
  all: try (intros _ _ _ H; exfalso; eapply H; reflexivity).
Qed.

Lemma events_frame_witness :
  let s' := Space.on 6 (Space.ParticipantLeft Ex.p2) Ex.watching in
  ids (Space.remoteParticipants s') = []
  /\ Space.participantScreenSharing s' = Some (Remote Ex.p2).
Proof.
  cbv zeta. split; [reflexivity|].
  refine (proj2 ((proj2 (proj2 (events_frame 6 (Space.ParticipantLeft Ex.p2) Ex.watching)))
                   _ _ _ _));
    intros; discriminate.
Defined.

(* ================================================================== *)
(** * More on publishing *)

Definition CameraAlreadyPublished : Js.JsError :=
  Js.newError "That camera is already published.".

Lemma getCamera_returns (getCamera : Space.Acquire) :
  getCamera = UserMedia.getCamera \/ getCamera = UserMediaB.getCamera ->
  forall c deviceId answer,
    exists track c', getCamera c deviceId answer = (Js.Returns track, c').
Proof.
  intros [->| ->] c deviceId answer; apply acquire_returns.
Qed.

(** X9.  [publishCamera] has the preconditions of [publishMicrophone]:
    without a local participant it fails with the join-first error and
    touches nothing; with a camera track of that device id among the
    published video tracks it fails with the already-published error and
    leaves the session state as it was.  Otherwise it hands [tracks[0]] of
    the acquisition to [publishTracks], passes a rejection on to the
    caller, and, unlike [publishMicrophone], never mutes. *)
Theorem publishCamera_outcomes
    (getCamera : Space.Acquire) (s : Space.State) (c : Media.Ctx)
    (deviceId : string) (acquired : Js.Outcome (list Sdk.Track))
    (publishAnswer : option Js.JsError) :
  getCamera = UserMedia.getCamera \/ getCamera = UserMediaB.getCamera ->
  (Space.localParticipant s = None ->
     Space.publishCamera getCamera s c deviceId acquired publishAnswer
     = (Js.Throws NotJoined, s, c))
  /\ (forall lp t,
        Space.localParticipant s = Some lp ->
        In t (LocalParticipant.getVideoTracks lp) ->
        Space.isCameraOf deviceId t = true ->
        Space.publishCamera getCamera s c deviceId acquired publishAnswer
        = (Js.Throws CameraAlreadyPublished, s, snd (getCamera c deviceId acquired)))
  /\ (forall lp,
        Space.localParticipant s = Some lp ->
        Js.find (Space.isCameraOf deviceId) (LocalParticipant.getVideoTracks lp) = None ->
        let '(outcome, _, c') :=
          Space.publishCamera getCamera s c deviceId acquired publishAnswer in
        outcome = match publishAnswer with
                  | Some e => Js.Throws e
                  | None => Js.Returns tt
                  end
        /\ Media.calls c'
           = Media.calls c
             ++ [GetUserMedia (Media.cameraOptions deviceId);
                 PublishTracks
                   [match acquired with
                    | Js.Returns tracks => hd_error tracks
                    | Js.Throws _ => None
                    end]]).
Proof.
  intros Hget. split; [|split].
  - intros Hnone. unfold Space.publishCamera. now rewrite Hnone.
  - intros lp t Hlp Hin Hcam. unfold Space.publishCamera. rewrite Hlp.
    destruct (getCamera_returns _ Hget c deviceId acquired) as (track & c' & ->).
    destruct (find_finds _ _ _ Hin Hcam) as (y & ->). reflexivity.
  - intros lp Hlp Hnone. unfold Space.publishCamera. rewrite Hlp.
    assert (Hlog : forall ts c0,
               Media.calls (fold_left Media.eachCameraTrack ts c0) = Media.calls c0).
    { induction ts as [|x r IH]; intros c0; cbn [fold_left]; [reflexivity|].
      rewrite IH. unfold Media.eachCameraTrack.
      destruct (Sdk.source x); try reflexivity.
      destruct (Sdk.deviceId x) as [d|]; [|reflexivity].
      unfold Media.when. now destruct (Js.truthyString (Some d)). }
    destruct Hget as [->| ->];
      unfold UserMedia.getCamera, UserMediaB.getCamera, Media.acquire;
      destruct acquired as [tracks|e]; rewrite Hnone;
      destruct publishAnswer as [err|]; cbn [Media.calls Media.call];
      (split; [reflexivity|]); rewrite ?Hlog; cbn; now rewrite <- app_assoc.
Qed.

Lemma publishCamera_outcomes_witness :
  let '(outcome, _, c') :=
    Space.publishCamera UserMedia.getCamera Ex.joinedAlone Ex.ctx "cam-1"
      (Js.Throws Ex.notFound) None in
  outcome = Js.Returns tt
  /\ Media.calls c'
     = [GetUserMedia (Media.cameraOptions "cam-1"); PublishTracks [None]].
Proof.
  exact (proj2 (proj2 (publishCamera_outcomes UserMedia.getCamera Ex.joinedAlone Ex.ctx
                         "cam-1" (Js.Throws Ex.notFound) None (or_introl eq_refl)))
           Ex.me eq_refl eq_refl).
Defined.

(** X10.  After [leaveSpace], whatever the SDK did during it, every
    device action finds no local participant: publishing a microphone or
    a camera and unpublishing a device fail with their join-first errors
    without asking anything of the device layer or the SDK, and starting
    or stopping a screen share does nothing. *)
Theorem nothing_publishes_after_leave
    (s : Space.State) (removeAnswer leaveAnswer : option Js.JsError)
    (get : Space.Acquire) (c : Media.Ctx) (deviceId : string)
    (acquired : Js.Outcome (list Sdk.Track)) (publishAnswer : option Js.JsError)
    (display : Js.Outcome (option (list Sdk.Track)))
    (published : Js.Outcome (list Sdk.Track)) :
  let left := snd (fst (Space.leaveSpace s removeAnswer leaveAnswer)) in
  Space.publishMicrophone get left c deviceId acquired publishAnswer
  = (Js.Throws NotJoined, left, c)
  /\ Space.publishCamera get left c deviceId acquired publishAnswer
     = (Js.Throws NotJoined, left, c)
  /\ Space.unPublishDevice left deviceId = (Js.Throws NotJoinedOrPublished, [])
  /\ SpaceOps.startScreenShare left display published = (Js.Returns None, left, [])
  /\ SpaceOps.stopScreenShare left = []
  /\ Space.participantCount left = 0%nat.
Proof.
  unfold Space.leaveSpace. destruct (Space.leaveSpaceTry s removeAnswer leaveAnswer).
  cbn. repeat split.
  unfold SpaceOps.stopScreenShare. cbn.
  destruct (Space.screenShareTrack s) as [t|]; [|reflexivity].
  now destruct (Sdk.isLocalTrack t).
Qed.

(** The last element of a list, or [d] when there is none. *)
Definition lastOr {A : Type} (d : option A) (l : list A) : option A :=
  fold_left (fun _ x => Some x) l d.

Lemma lastOr_app {A : Type} (d : option A) l x : lastOr d (l ++ [x]) = Some x.
Proof. unfold lastOr. now rewrite fold_left_app. Qed.

Definition isMicrophone (t : Sdk.Track) : bool :=
  Sdk.TrackSource_eqb (Sdk.source t) Sdk.Microphone.

Definition isCamera (t : Sdk.Track) : bool :=
  Sdk.TrackSource_eqb (Sdk.source t) Sdk.Camera.

(** What the loop of [getMicrophone] leaves behind: one [mute] for each
    microphone track if the microphone is to be muted, the last microphone
    track as the active one, and the camera side and the error untouched. *)
Lemma eachMicrophoneTrack_fold muted ts c :
  let mics := filter isMicrophone ts in
  let c' := fold_left (Media.eachMicrophoneTrack muted) ts c in
  Media.calls c' = Media.calls c ++ (if muted then map Mute mics else [])
  /\ Media.activeMicrophone (Media.media c')
     = lastOr (Media.activeMicrophone (Media.media c)) mics
  /\ option_map Media.analysed (Media.localAudioAnalyser (Media.media c'))
     = lastOr (option_map Media.analysed (Media.localAudioAnalyser (Media.media c))) mics
  /\ Media.activeCamera (Media.media c') = Media.activeCamera (Media.media c)
  /\ Media.userMediaError (Media.media c') = Media.userMediaError (Media.media c)
  /\ User.cameraDeviceId (Media.user c') = User.cameraDeviceId (Media.user c)
  /\ User.userWantsMicMuted (Media.user c') = User.userWantsMicMuted (Media.user c)
  /\ User.cameraOff (Media.user c') = User.cameraOff (Media.user c).
Proof.
  cbv zeta. revert c. induction ts as [|x r IH]; intros c; cbn [fold_left filter].
  - cbn. destruct muted; rewrite ?app_nil_r; repeat split.
  - destruct (IH (Media.eachMicrophoneTrack muted c x))
      as (Hc & Hm & Ha & Hcam & Herr & Hu1 & Hu2 & Hu3).
    rewrite Hc, Hm, Ha, Hcam, Herr, Hu1, Hu2, Hu3.
    clear IH Hc Hm Ha Hcam Herr Hu1 Hu2 Hu3.
    unfold Media.eachMicrophoneTrack.
    change (isMicrophone x) with (Sdk.TrackSource_eqb (Sdk.source x) Sdk.Microphone).
    destruct (Sdk.source x); cbn [Sdk.TrackSource_eqb];
      try (repeat split; reflexivity).
    destruct (Sdk.deviceId x) as [d|]; unfold Media.when;
      [destruct (Js.truthyString (Some d))|]; destruct muted; cbn;
      rewrite <- ?app_assoc; repeat split.
Qed.

Lemma eachCameraTrack_fold ts c :
  let c' := fold_left Media.eachCameraTrack ts c in
  Media.calls c' = Media.calls c
  /\ Media.activeCamera (Media.media c')
     = lastOr (Media.activeCamera (Media.media c)) (filter isCamera ts)
  /\ Media.activeMicrophone (Media.media c') = Media.activeMicrophone (Media.media c)
  /\ Media.localAudioAnalyser (Media.media c') = Media.localAudioAnalyser (Media.media c)
  /\ Media.userMediaError (Media.media c') = Media.userMediaError (Media.media c)
  /\ User.microphoneDeviceId (Media.user c') = User.microphoneDeviceId (Media.user c)
  /\ User.userWantsMicMuted (Media.user c') = User.userWantsMicMuted (Media.user c)
  /\ User.cameraOff (Media.user c') = User.cameraOff (Media.user c).
Proof.
  cbv zeta. revert c. induction ts as [|x r IH]; intros c; cbn [fold_left filter].
  - repeat split.
  - destruct (IH (Media.eachCameraTrack c x))
      as (Hc & Hm & Ha & Hcam & Herr & Hu1 & Hu2 & Hu3).
    rewrite Hc, Hm, Ha, Hcam, Herr, Hu1, Hu2, Hu3.
    clear IH Hc Hm Ha Hcam Herr Hu1 Hu2 Hu3.
    unfold Media.eachCameraTrack.
    change (isCamera x) with (Sdk.TrackSource_eqb (Sdk.source x) Sdk.Camera).
    destruct (Sdk.source x); cbn [Sdk.TrackSource_eqb];
      try (repeat split; reflexivity).
    destruct (Sdk.deviceId x) as [d|]; unfold Media.when;
      [destruct (Js.truthyString (Some d))|]; cbn; repeat split.
Qed.

(* ================================================================== *)
(** * Successful acquisition *)

Section AcquisitionSuccess.

Variables (c : Media.Ctx) (deviceId : string) (tracks : list Sdk.Track).

Let muted := User.userWantsMicMuted (Media.user c).

(** What a resolved [getMicrophone] leaves behind. *)
Lemma getMicrophone_resolved (getMicrophone : Space.Acquire) :
  getMicrophone = UserMedia.getMicrophone \/ getMicrophone = UserMediaB.getMicrophone ->
  let '(returned, c') := getMicrophone c deviceId (Js.Returns tracks) in
  let mics := filter isMicrophone tracks in
  returned = Js.Returns (hd_error tracks)
  /\ Media.activeMicrophone (Media.media c')
     = lastOr (Media.activeMicrophone (Media.media c)) mics
  /\ option_map Media.analysed (Media.localAudioAnalyser (Media.media c'))
     = lastOr (option_map Media.analysed (Media.localAudioAnalyser (Media.media c))) mics
  /\ Media.calls c'
     = Media.calls c
       ++ GetUserMedia (Media.microphoneOptions deviceId)
          :: (if muted then map Mute mics else [])
  /\ Media.activeCamera (Media.media c') = Media.activeCamera (Media.media c).
Proof.
  intros [->| ->]; unfold UserMedia.getMicrophone, UserMediaB.getMicrophone, Media.acquire;
    fold muted;
    destruct (eachMicrophoneTrack_fold muted tracks
                (Media.call (GetUserMedia (Media.microphoneOptions deviceId)) c))
      as (Hc & Hm & Ha & Hcam & _);
    cbv zeta in *; rewrite Hc, Hm, Ha, Hcam; cbn; rewrite <- app_assoc; repeat split.
Qed.

(** X11.  When [getUserMedia] resolves, [getMicrophone] (either copy)
    returns the first track of the answer whatever its source, while the
    active microphone becomes the last track whose source is the
    microphone (and stays what it was if there is none); the analyser is
    set up over that same track; each microphone track is muted if and
    only if the user wants the microphone muted; the active camera is not
    touched. *)
Theorem getMicrophone_success (getMicrophone : Space.Acquire) :
  getMicrophone = UserMedia.getMicrophone \/ getMicrophone = UserMediaB.getMicrophone ->
  let '(returned, c') := getMicrophone c deviceId (Js.Returns tracks) in
  let mics := filter isMicrophone tracks in
  returned = Js.Returns (hd_error tracks)
  /\ Media.activeMicrophone (Media.media c')
     = lastOr (Media.activeMicrophone (Media.media c)) mics
  /\ option_map Media.analysed (Media.localAudioAnalyser (Media.media c'))
     = lastOr (option_map Media.analysed (Media.localAudioAnalyser (Media.media c))) mics
  /\ Media.calls c'
     = Media.calls c
       ++ GetUserMedia (Media.microphoneOptions deviceId)
          :: (if muted then map Mute mics else [])
  /\ Media.activeCamera (Media.media c') = Media.activeCamera (Media.media c).
Proof.
  intros Hcopy.
  assert (Hloop := eachMicrophoneTrack_fold muted tracks
                     (Media.call (GetUserMedia (Media.microphoneOptions deviceId)) c)).
  cbv zeta in Hloop. destruct Hloop as (Hc & Hm & Ha & Hcam & _).
  destruct Hcopy as [->| ->];
    unfold UserMedia.getMicrophone, UserMediaB.getMicrophone, Media.acquire;
    fold muted; rewrite Hc, Hm, Ha, Hcam; cbn; rewrite <- app_assoc; repeat split.
Qed.

(** What a resolved [getCamera] leaves behind. *)
Lemma getCamera_resolved (getCamera : Space.Acquire) :
  getCamera = UserMedia.getCamera \/ getCamera = UserMediaB.getCamera ->
  let '(returned, c') := getCamera c deviceId (Js.Returns tracks) in
  returned = Js.Returns (hd_error tracks)
  /\ Media.activeCamera (Media.media c')
     = lastOr (Media.activeCamera (Media.media c)) (filter isCamera tracks)
  /\ Media.calls c' = Media.calls c ++ [GetUserMedia (Media.cameraOptions deviceId)]
  /\ Media.activeMicrophone (Media.media c') = Media.activeMicrophone (Media.media c)
  /\ Media.localAudioAnalyser (Media.media c') = Media.localAudioAnalyser (Media.media c)
  /\ User.microphoneDeviceId (Media.user c') = User.microphoneDeviceId (Media.user c).
Proof.
  intros [->| ->]; unfold UserMedia.getCamera, UserMediaB.getCamera, Media.acquire;
    destruct (eachCameraTrack_fold tracks
                (Media.call (GetUserMedia (Media.cameraOptions deviceId)) c))
      as (Hc & Hm & Ha & Hcam & _ & Hu & _);
    cbv zeta in *; rewrite Hc, Hm, Ha, Hcam, Hu; cbn; repeat split.
Qed.

(** X12.  When [getUserMedia] resolves, [getCamera] (either copy) returns
    the first track of the answer, makes the last camera track the active
    camera, asks nothing of the SDK but the acquisition itself (it never
    mutes), and leaves the active microphone, the analyser and the
    microphone device id as they were. *)
Theorem getCamera_success (getCamera : Space.Acquire) :
  getCamera = UserMedia.getCamera \/ getCamera = UserMediaB.getCamera ->
  let '(returned, c') := getCamera c deviceId (Js.Returns tracks) in
  returned = Js.Returns (hd_error tracks)
  /\ Media.activeCamera (Media.media c')
     = lastOr (Media.activeCamera (Media.media c)) (filter isCamera tracks)
  /\ Media.calls c' = Media.calls c ++ [GetUserMedia (Media.cameraOptions deviceId)]
  /\ Media.activeMicrophone (Media.media c') = Media.activeMicrophone (Media.media c)
  /\ Media.localAudioAnalyser (Media.media c') = Media.localAudioAnalyser (Media.media c)
  /\ User.microphoneDeviceId (Media.user c') = User.microphoneDeviceId (Media.user c).
Proof.
  intros Hcopy.
  assert (Hloop := eachCameraTrack_fold tracks
                     (Media.call (GetUserMedia (Media.cameraOptions deviceId)) c)).
  cbv zeta in Hloop. destruct Hloop as (Hc & Hm & Ha & Hcam & _ & Hu & _).
  destruct Hcopy as [->| ->];
    unfold UserMedia.getCamera, UserMediaB.getCamera, Media.acquire;
    rewrite Hc, Hm, Ha, Hcam, Hu; cbn; repeat split.
Qed.

(** X13.  A successful acquisition never clears an earlier error: after
    [getMicrophone] or [getCamera] (either copy) resolved with tracks,
    [userMediaError] is what it was before the call. *)
Theorem acquisition_success_keeps_error (get : Space.Acquire) :
  get = UserMedia.getMicrophone \/ get = UserMediaB.getMicrophone
  \/ get = UserMedia.getCamera \/ get = UserMediaB.getCamera ->
  Media.userMediaError (Media.media (snd (get c deviceId (Js.Returns tracks))))
  = Media.userMediaError (Media.media c).
Proof.
  intros [->|[->|[->| ->]]];
    unfold UserMedia.getMicrophone, UserMediaB.getMicrophone,
      UserMedia.getCamera, UserMediaB.getCamera, Media.acquire; cbn [snd].
  1,2: destruct (eachMicrophoneTrack_fold muted tracks
                   (Media.call (GetUserMedia (Media.microphoneOptions deviceId)) c))
         as (_ & _ & _ & _ & Herr & _); exact Herr.
  all: destruct (eachCameraTrack_fold tracks
                   (Media.call (GetUserMedia (Media.cameraOptions deviceId)) c))
         as (_ & _ & _ & _ & Herr & _); exact Herr.
Qed.

End AcquisitionSuccess.

Lemma getMicrophone_success_witness :
  let '(returned, c') :=
    UserMedia.getMicrophone Ex.ctx "" (Js.Returns [Ex.camera; Ex.defaultMic]) in
  returned = Js.Returns (Some Ex.camera)
  /\ Media.activeMicrophone (Media.media c') = Some Ex.defaultMic.
Proof.
  pose proof (getMicrophone_success Ex.ctx "" [Ex.camera; Ex.defaultMic]
                UserMedia.getMicrophone (or_introl eq_refl)) as H.
  cbn in H |- *. destruct H as (H1 & H2 & _). split; assumption.
Defined.

Lemma getCamera_success_witness :
  let '(returned, c') :=
    UserMedia.getCamera Ex.ctx "" (Js.Returns [Ex.camera]) in
  returned = Js.Returns (Some Ex.camera)
  /\ Media.calls c' = [GetUserMedia (Media.cameraOptions "")].
Proof.
  pose proof (getCamera_success Ex.ctx "" [Ex.camera]
                UserMedia.getCamera (or_introl eq_refl)) as H.
  cbn in H |- *. destruct H as (H1 & _ & H3 & _). split; assumption.
Defined.

Lemma acquisition_success_keeps_error_witness :
  let failed := snd (UserMedia.getMicrophone Ex.ctx "usb-1" (Js.Throws Ex.notFound)) in
  Media.userMediaError
    (Media.media (snd (UserMedia.getMicrophone failed "" (Js.Returns [Ex.defaultMic]))))
  = Some "NotAllowedError".
Proof.
  cbv zeta.
  rewrite (acquisition_success_keeps_error _ "" [Ex.defaultMic] UserMedia.getMicrophone
             (or_introl eq_refl)).
  reflexivity.
Defined.

(* ================================================================== *)
(** * The analyser and the active microphone *)

(** The analyser, if any, is the one set up over the active microphone,
    with a buffer of 2048 samples. *)
Definition analyserFollows (m : Media.State) : Prop :=
  option_map Media.analysed (Media.localAudioAnalyser m) = Media.activeMicrophone m
  /\ forall a, Media.localAudioAnalyser m = Some a -> Media.fftSize a = 2048%nat.

Lemma analyserFollows_initial : analyserFollows Media.initial.
Proof. split; [reflexivity | discriminate]. Qed.

Lemma analyserFollows_error e m :
  analyserFollows m -> analyserFollows (Media.setUserMediaError e m).
Proof. intros H. exact H. Qed.

Lemma analyserFollows_eachMicrophoneTrack muted c x :
  analyserFollows (Media.media c) ->
  analyserFollows (Media.media (Media.eachMicrophoneTrack muted c x)).
Proof.
  intros H. unfold Media.eachMicrophoneTrack.
  destruct (Sdk.source x); try exact H.
  assert (G : analyserFollows
                (Media.setupLocalMicrophoneAnalyser x
                   (Media.setActiveMicrophone (Some x) (Media.media c)))).
  { split; [reflexivity|]. cbn. now intros a [= <-]. }
  destruct (Sdk.deviceId x) as [d|]; unfold Media.when;
    [destruct (Js.truthyString (Some d))|]; destruct muted; exact G.
Qed.

Lemma analyserFollows_eachCameraTrack c x :
  analyserFollows (Media.media c) ->
  analyserFollows (Media.media (Media.eachCameraTrack c x)).
Proof.
  intros H. unfold Media.eachCameraTrack.
  destruct (Sdk.source x); try exact H.
  destruct (Sdk.deviceId x) as [d|]; unfold Media.when;
    [destruct (Js.truthyString (Some d))|]; exact H.
Qed.

Lemma analyserFollows_fold (each : Media.Ctx -> Sdk.Track -> Media.Ctx) ts c :
  (forall c x, analyserFollows (Media.media c) -> analyserFollows (Media.media (each c x))) ->
  analyserFollows (Media.media c) ->
  analyserFollows (Media.media (fold_left each ts c)).
Proof.
  intros Heach. revert c. induction ts as [|x r IH]; intros c H; cbn; auto.
Qed.

Lemma analyserFollows_acquire options onError each c answer :
  (forall e m, analyserFollows m -> analyserFollows (onError e m)) ->
  (forall c x, analyserFollows (Media.media c) -> analyserFollows (Media.media (each c x))) ->
  analyserFollows (Media.media c) ->
  analyserFollows (Media.media (snd (Media.acquire options onError each c answer))).
Proof.
  intros Herr Heach H. unfold Media.acquire.
  destruct answer as [ts|e]; cbn [snd]; apply analyserFollows_fold; auto.
  cbn. now apply Herr.
Qed.

Lemma analyserFollows_catch e m :
  analyserFollows m -> analyserFollows (UserMedia.catchAcquisition e m).
Proof.
  intros H. unfold UserMedia.catchAcquisition.
  destruct (UserMedia.isNotAllowed e); [exact H|].
  destruct (UserMedia.isOverconstrained e); exact H.
Qed.

Lemma media_loadDevices enumerate w :
  Platform.media (snd (Platform.loadDevices enumerate w)) = Platform.media w.
Proof.
  unfold Platform.loadDevices. destruct enumerate as [[l|e]|]; reflexivity.
Qed.

Lemma analyserFollows_startWith muted tracks enumerate w :
  analyserFollows (Platform.media w) ->
  analyserFollows (Platform.media (snd (Platform.startWith muted tracks enumerate w))).
Proof.
  intros H. unfold Platform.startWith. rewrite media_loadDevices.
  cbn. apply analyserFollows_fold; [|exact H].
  intros c x Hc. unfold Platform.eachStartedTrack.
  destruct (Sdk.source x) eqn:Src; [| |exact Hc].
  - now apply analyserFollows_eachCameraTrack.
  - now apply analyserFollows_eachMicrophoneTrack.
Qed.

Lemma media_fold_effect {A : Type} (f : Platform.World -> A -> Platform.World) l w :
  (forall w x, Platform.media (f w x) = Platform.media w) ->
  Platform.media (fold_left f l w) = Platform.media w.
Proof.
  intros Hf. revert w. induction l as [|x r IH]; intros w; cbn; [reflexivity|].
  now rewrite IH, Hf.
Qed.

Lemma media_eachPopulatedTrack w x :
  Platform.media (Platform.eachPopulatedTrack w x) = Platform.media w.
Proof.
  unfold Platform.eachPopulatedTrack.
  destruct (Sdk.deviceId x) as [d|]; [|reflexivity].
  destruct (Js.truthyString (Some d)); [|reflexivity].
  now destruct (Sdk.source x).
Qed.

(** Neither copy of [requestPermissionAndPopulateDevices] writes the
    media state. *)
Lemma media_populate copy w answer enumerate :
  Platform.media (MediaSystem.step copy w (MediaSystem.PopulateDevices answer enumerate))
  = Platform.media w.
Proof.
  destruct copy; cbn.
  - unfold UserMediaOps.requestPermissionAndPopulateDevices.
    destruct (Platform.loadDevices enumerate _) as [[u|e] w'] eqn:L; cbn [snd].
    + rewrite media_fold_effect by reflexivity.
      change w' with (snd (Js.Returns u, w')). rewrite <- L, media_loadDevices.
      now rewrite media_fold_effect by apply media_eachPopulatedTrack.
    + change w' with (snd (@Js.Throws unit e, w')). rewrite <- L, media_loadDevices.
      now rewrite media_fold_effect by apply media_eachPopulatedTrack.
  - unfold UserMediaBOps.requestPermissionAndPopulateDevices.
    rewrite media_loadDevices.
    now rewrite media_fold_effect by (intros; cbn; apply media_eachPopulatedTrack).
Qed.

Lemma step_analyserFollows copy w a :
  analyserFollows (Platform.media w) ->
  analyserFollows (Platform.media (MediaSystem.step copy w a)).
Proof.
  intros H.
  destruct a as [d answer|d answer|mic cam first fallback enumerate|answer enumerate
                | | | |enumerate|f|muted].
  - destruct copy; cbn; unfold Platform.acquireIn;
      unfold UserMedia.getMicrophone, UserMediaB.getMicrophone;
      match goal with |- context [Media.acquire ?o ?h ?f ?c ?a] =>
        pose proof (analyserFollows_acquire o h f c a) as G;
        destruct (Media.acquire o h f c a) as [r c'] end;
      cbn in *; apply G; auto using analyserFollows_catch, analyserFollows_eachMicrophoneTrack.
  - destruct copy; cbn; unfold Platform.acquireIn;
      unfold UserMedia.getCamera, UserMediaB.getCamera;
      match goal with |- context [Media.acquire ?o ?h ?f ?c ?a] =>
        pose proof (analyserFollows_acquire o h f c a) as G;
        destruct (Media.acquire o h f c a) as [r c'] end;
      cbn in *; apply G; auto using analyserFollows_catch, analyserFollows_eachCameraTrack.
  - destruct copy; cbn.
    + unfold UserMediaOps.requestPermissionAndStartDevices.
      destruct first as [ts|e]; [now apply analyserFollows_startWith|].
      destruct (UserMedia.isNotAllowed e); [now apply analyserFollows_startWith|].
      destruct (UserMedia.isOverconstrained e); [|now apply analyserFollows_startWith].
      destruct fallback as [ts|e']; [now apply analyserFollows_startWith | exact H].
    + unfold UserMediaBOps.requestPermissionAndStartDevices.
      destruct first as [ts|e]; now apply analyserFollows_startWith.
  - now rewrite media_populate.
  - cbn. unfold Platform.stopActiveCamera.
    destruct (Media.activeCamera (Platform.media w)); exact H.
  - cbn. unfold Platform.muteActiveMicrophone.
    destruct (Media.activeMicrophone (Platform.media w)); exact H.
  - cbn. unfold Platform.unMuteActiveMicrophone.
    destruct (Media.activeMicrophone (Platform.media w)); exact H.
  - cbn. now rewrite media_loadDevices.
  - exact H.
  - cbn. unfold MediaSystem.syncMute.
    destruct (Media.activeMicrophone (Platform.media w)); [|exact H].
    destruct (_ && _); [exact H|]. destruct (_ && _); exact H.
Qed.

(** X14.  In every state either copy of the media provider reaches, the
    analyser is the one set up over the active microphone and its buffer
    has 2048 samples; so [getActiveMicrophoneLevel], which tests the
    analyser, returns [null] exactly when there is no active
    microphone. *)
Theorem analyser_follows_microphone (copy : MediaSystem.Copy) (w : Platform.World) :
  MediaSystem.reachable copy w ->
  analyserFollows (Platform.media w)
  /\ (forall log10 pow data,
        (MicrophoneLevel.getActiveMicrophoneLevel log10 pow data (Platform.media w) = None
         <-> Media.activeMicrophone (Platform.media w) = None)
        /\ (MicrophoneLevel.getActiveMicrophoneLevelB log10 pow data (Platform.media w) = None
            <-> Media.activeMicrophone (Platform.media w) = None)).
Proof.
  intros (u & actions & ->).
  assert (G : forall w0, analyserFollows (Platform.media w0) ->
                analyserFollows (Platform.media (MediaSystem.run copy w0 actions))).
  { unfold MediaSystem.run. induction actions as [|a r IH]; intros w0 H0; cbn; [exact H0|].
    apply IH. now apply step_analyserFollows. }
  specialize (G (Platform.initial u) analyserFollows_initial).
  split; [exact G|]. intros log10 pow data. destruct G as [G _].
  unfold MicrophoneLevel.getActiveMicrophoneLevel, MicrophoneLevel.getActiveMicrophoneLevelB.
  rewrite <- G.
  destruct (Media.localAudioAnalyser _) as [a|]; cbn.
  - destruct (fold_left _ _ _). split; split; discriminate.
  - split; split; reflexivity.
Qed.

Lemma analyser_follows_microphone_witness :
  let w := MediaSystem.run MediaSystem.TSX (Platform.initial Ex.user)
             [MediaSystem.GetMicrophone "" (Js.Returns [Ex.defaultMic]);
              MediaSystem.GetCamera "" (Js.Throws Ex.notFound);
              MediaSystem.StopActiveCamera] in
  option_map Media.analysed (Media.localAudioAnalyser (Platform.media w))
  = Media.activeMicrophone (Platform.media w).
Proof.
  cbv zeta. eapply (proj1 (proj1 (analyser_follows_microphone MediaSystem.TSX _ _))).
  Unshelve. exists Ex.user. eexists. reflexivity.
Defined.

(* ================================================================== *)
(** * The bulk permission requests *)

Lemma eachStartedTrack_fold muted ts c :
  let c' := fold_left (Platform.eachStartedTrack muted) ts c in
  Media.activeMicrophone (Media.media c')
  = lastOr (Media.activeMicrophone (Media.media c)) (filter isMicrophone ts)
  /\ Media.activeCamera (Media.media c')
     = lastOr (Media.activeCamera (Media.media c)) (filter isCamera ts)
  /\ Media.userMediaError (Media.media c') = Media.userMediaError (Media.media c).
Proof.
  cbv zeta. revert c. induction ts as [|x r IH]; intros c; cbn [fold_left filter].
  - repeat split.
  - destruct (IH (Platform.eachStartedTrack muted c x)) as (Hm & Hc & He).
    rewrite Hm, Hc, He. clear IH Hm Hc He.
    unfold Platform.eachStartedTrack, Media.eachMicrophoneTrack, Media.eachCameraTrack.
    change (isCamera x) with (Sdk.TrackSource_eqb (Sdk.source x) Sdk.Camera).
    change (isMicrophone x) with (Sdk.TrackSource_eqb (Sdk.source x) Sdk.Microphone).
    destruct (Sdk.source x); cbn [Sdk.TrackSource_eqb];
      try (repeat split; reflexivity);
      destruct (Sdk.deviceId x) as [d|]; unfold Media.when;
      [destruct (Js.truthyString (Some d))| |destruct (Js.truthyString (Some d))|];
      try destruct muted; cbn; repeat split.
Qed.

Lemma startWith_media muted tracks enumerate w :
  let w' := snd (Platform.startWith muted tracks enumerate w) in
  Media.activeMicrophone (Platform.media w')
  = lastOr (Media.activeMicrophone (Platform.media w)) (filter isMicrophone tracks)
  /\ Media.activeCamera (Platform.media w')
     = lastOr (Media.activeCamera (Platform.media w)) (filter isCamera tracks)
  /\ Media.userMediaError (Platform.media w') = Media.userMediaError (Platform.media w).
Proof.
  cbv zeta. unfold Platform.startWith. rewrite media_loadDevices. cbn.
  apply (eachStartedTrack_fold muted tracks (Platform.context w)).
Qed.

Lemma startWith_outcome muted tracks enumerate w :
  fst (Platform.startWith muted tracks enumerate w)
  = match enumerate with
    | Some (Js.Throws e) => Js.Throws e
    | _ => Js.Returns tt
    end.
Proof.
  unfold Platform.startWith, Platform.loadDevices.
  destruct enumerate as [[l|e]|]; reflexivity.
Qed.

(** X15.  [requestPermissionAndStartDevices] of context/UserMedia.tsx,
    when the first acquisition fails with an overconstrained error that is
    not a [DOMException]: it asks again for any microphone and any camera,
    also for a modality the caller passed as [undefined], and records no
    error.  If that second request fails, the call rejects with its
    error: nothing is recorded, no track becomes active and the device
    lists are not reloaded.  If it succeeds, the last camera track and
    the last microphone track of the answer become the active ones. *)
Theorem start_devices_overconstrained_fallback
    (w : Platform.World) (microphoneDeviceId cameraDeviceId : option string)
    (e : Js.JsError) (fallback : Js.Outcome (list Sdk.Track))
    (enumerate : option (Js.Outcome (list Platform.MediaDeviceInfo))) :
  UserMedia.isNotAllowed e = false ->
  UserMedia.isOverconstrained e = true ->
  let asked :=
    Platform.effect Platform.GetUserMediaAny
      (Platform.effect
         (Platform.Sdk (GetUserMedia (Platform.startOptions microphoneDeviceId cameraDeviceId)))
         w) in
  let '(outcome, w') :=
    UserMediaOps.requestPermissionAndStartDevices w microphoneDeviceId cameraDeviceId
      (Js.Throws e) fallback enumerate in
  Media.userMediaError (Platform.media w') = Media.userMediaError (Platform.media w)
  /\ match fallback with
     | Js.Throws e' => outcome = Js.Throws e' /\ w' = asked
     | Js.Returns tracks =>
         Media.activeCamera (Platform.media w')
         = lastOr (Media.activeCamera (Platform.media w)) (filter isCamera tracks)
         /\ Media.activeMicrophone (Platform.media w')
            = lastOr (Media.activeMicrophone (Platform.media w)) (filter isMicrophone tracks)
     end.
Proof.
  intros HNA HOC. cbv zeta.
  unfold UserMediaOps.requestPermissionAndStartDevices. rewrite HNA, HOC.
  destruct fallback as [tracks|e'].
  - match goal with |- context [Platform.startWith ?m ?t ?en ?w0] =>
      pose proof (startWith_media m t en w0) as G;
      destruct (Platform.startWith m t en w0) as [o w'] end.
    cbv zeta in G. cbn [snd] in G. destruct G as (Hm & Hc & He).
    rewrite Hm, Hc, He. repeat split.
  - repeat split.
Qed.

Lemma start_devices_overconstrained_fallback_witness :
  let '(_, w') :=
    UserMediaOps.requestPermissionAndStartDevices (Platform.initial Ex.user)
      (Some "usb-9") None (Js.Throws Ex.overconstrained)
      (Js.Returns [Ex.defaultMic; Ex.camera]) None in
  Media.activeCamera (Platform.media w') = Some Ex.camera.
Proof.
  pose proof (start_devices_overconstrained_fallback (Platform.initial Ex.user)
                (Some "usb-9") None Ex.overconstrained
                (Js.Returns [Ex.defaultMic; Ex.camera]) None eq_refl eq_refl) as H.
  cbn in H |- *. exact (proj1 (proj2 H)).
Defined.

(** X16.  Apart from that fallback, an acquisition failure never makes
    [requestPermissionAndStartDevices] reject: in unnamed/part_002 for
    every failure, and in context/UserMedia.tsx for every failure but an
    overconstrained one, the call goes on to [loadDevices] with no track,
    so it rejects only if the enumeration does, the active tracks stay as
    they were, and the failure is recorded (its own name in part_002). *)
Theorem start_devices_failure_recorded
    (w : Platform.World) (microphoneDeviceId cameraDeviceId : option string)
    (e : Js.JsError) (fallback : Js.Outcome (list Sdk.Track))
    (enumerate : option (Js.Outcome (list Platform.MediaDeviceInfo))) :
  let loaded :=
    match enumerate with
    | Some (Js.Throws e') => Js.Throws e'
    | _ => Js.Returns tt
    end in
  (let '(outcome, w') :=
     UserMediaBOps.requestPermissionAndStartDevices w microphoneDeviceId cameraDeviceId
       (Js.Throws e) enumerate in
   outcome = loaded
   /\ Media.userMediaError (Platform.media w') = Some (Js.name e)
   /\ Media.activeMicrophone (Platform.media w') = Media.activeMicrophone (Platform.media w)
   /\ Media.activeCamera (Platform.media w') = Media.activeCamera (Platform.media w))
  /\ (UserMedia.isNotAllowed e = true \/ UserMedia.isOverconstrained e = false ->
      let '(outcome, w') :=
        UserMediaOps.requestPermissionAndStartDevices w microphoneDeviceId cameraDeviceId
          (Js.Throws e) fallback enumerate in
      outcome = loaded
      /\ Media.userMediaError (Platform.media w') = recorded e
      /\ Media.activeMicrophone (Platform.media w') = Media.activeMicrophone (Platform.media w)
      /\ Media.activeCamera (Platform.media w') = Media.activeCamera (Platform.media w)).
Proof.
  cbv zeta.
  assert (G : forall m0 w0,
             let r := Platform.startWith m0 [] enumerate w0 in
             fst r = match enumerate with
                     | Some (Js.Throws e') => Js.Throws e'
                     | _ => Js.Returns tt
                     end
             /\ Platform.media (snd r) = Platform.media w0).
  { intros m0 w0. cbv zeta. split; [apply startWith_outcome|].
    unfold Platform.startWith. now rewrite media_loadDevices. }
  split.
  - unfold UserMediaBOps.requestPermissionAndStartDevices.
    match goal with |- context [Platform.startWith ?m ?t ?en ?w0] =>
      destruct (G m w0) as [Ho Hm];
      destruct (Platform.startWith m t en w0) as [o w'] end.
    cbn [fst snd] in *. rewrite Ho, Hm. repeat split.
  - intros Hcase. unfold UserMediaOps.requestPermissionAndStartDevices.
    rewrite recorded_unfold.
    change (userDeclined e || Js.isDOMException e) with (UserMedia.isNotAllowed e).
    change (constraintsUnmet e) with (UserMedia.isOverconstrained e).
    destruct (UserMedia.isNotAllowed e) eqn:NA;
      [|destruct (UserMedia.isOverconstrained e) eqn:OC;
        [destruct Hcase; discriminate|]];
      match goal with |- context [Platform.startWith ?m ?t ?en ?w0] =>
        destruct (G m w0) as [Ho Hm];
        destruct (Platform.startWith m t en w0) as [o w'] end;
      cbn [fst snd] in *; rewrite Ho, Hm; repeat split.
Qed.

Lemma start_devices_failure_recorded_witness :
  let '(outcome, w') :=
    UserMediaOps.requestPermissionAndStartDevices (Platform.initial Ex.user)
      (Some "") (Some "") (Js.Throws Ex.notFound) (Js.Returns []) None in
  outcome = Js.Returns tt
  /\ Media.userMediaError (Platform.media w') = Some "NotAllowedError".
Proof.
  pose proof (proj2 (start_devices_failure_recorded (Platform.initial Ex.user)
                       (Some "") (Some "") Ex.notFound (Js.Returns []) None)
                (or_introl eq_refl)) as H.
  cbn in H |- *. destruct H as (H1 & H2 & _). split; assumption.
Defined.

Lemma effects_eachPopulatedTrack w x :
  Platform.effects (Platform.eachPopulatedTrack w x) = Platform.effects w.
Proof.
  unfold Platform.eachPopulatedTrack.
  destruct (Sdk.deviceId x) as [d|]; [|reflexivity].
  destruct (Js.truthyString (Some d)); [|reflexivity].
  now destruct (Sdk.source x).
Qed.

Lemma effects_fold_populated ts w :
  Platform.effects (fold_left Platform.eachPopulatedTrack ts w) = Platform.effects w.
Proof.
  revert w. induction ts as [|x r IH]; intros w; cbn; [reflexivity|].
  now rewrite IH, effects_eachPopulatedTrack.
Qed.

Lemma effects_fold_stop ts w :
  Platform.effects
    (fold_left (fun w track => Platform.effect (Platform.StopMediaTrack track) w) ts w)
  = Platform.effects w ++ map Platform.StopMediaTrack ts.
Proof.
  revert w. induction ts as [|x r IH]; intros w; cbn [fold_left map].
  - now rewrite app_nil_r.
  - rewrite IH. cbn. now rewrite <- app_assoc.
Qed.

Lemma effects_fold_populated_stop ts w :
  Platform.effects
    (fold_left (fun w track =>
                  Platform.effect (Platform.StopMediaTrack track)
                    (Platform.eachPopulatedTrack w track)) ts w)
  = Platform.effects w ++ map Platform.StopMediaTrack ts.
Proof.
  revert w. induction ts as [|x r IH]; intros w; cbn [fold_left map].
  - now rewrite app_nil_r.
  - rewrite IH. cbn. now rewrite effects_eachPopulatedTrack, <- app_assoc.
Qed.

Lemma loadDevices_effects enumerate w :
  Platform.effects (snd (Platform.loadDevices enumerate w))
  = Platform.effects w
    ++ match enumerate with Some _ => [Platform.EnumerateDevices] | None => [] end.
Proof.
  unfold Platform.loadDevices. destruct enumerate as [[l|e]|]; cbn;
    now rewrite ?app_nil_r.
Qed.

Lemma loadDevices_outcome enumerate w :
  fst (Platform.loadDevices enumerate w)
  = match enumerate with
    | Some (Js.Throws e) => Js.Throws e
    | _ => Js.Returns tt
    end.
Proof.
  unfold Platform.loadDevices. destruct enumerate as [[l|e]|]; reflexivity.
Qed.

(** X17.  [requestPermissionAndPopulateDevices] only probes: in both
    copies the media state (active tracks, analyser, recorded error) is
    what it was, also when the acquisition fails.  The two copies differ
    in when the probe tracks are stopped.  In unnamed/part_002 every track
    is stopped before the devices are enumerated, whatever happens then.
    In context/UserMedia.tsx the tracks are stopped after the
    enumeration, and when the enumeration throws the call rejects and no
    track is stopped. *)
Theorem populate_devices_stops_tracks
    (w : Platform.World) (answer : Js.Outcome (list Sdk.Track))
    (enumerate : option (Js.Outcome (list Platform.MediaDeviceInfo))) :
  let tracks := match answer with Js.Returns ts => ts | Js.Throws _ => [] end in
  let request :=
    Platform.GetUserMediaPreferred (User.microphoneDeviceId (Platform.user w))
                                   (User.cameraDeviceId (Platform.user w)) in
  let enumerated :=
    match enumerate with Some _ => [Platform.EnumerateDevices] | None => [] end in
  let loaded :=
    match enumerate with
    | Some (Js.Throws e) => Js.Throws e
    | _ => Js.Returns tt
    end in
  (let '(outcome, w') :=
     UserMediaBOps.requestPermissionAndPopulateDevices w answer enumerate in
   outcome = loaded
   /\ Platform.media w' = Platform.media w
   /\ Platform.effects w'
      = Platform.effects w
        ++ request :: map Platform.StopMediaTrack tracks ++ enumerated)
  /\ (let '(outcome, w') :=
        UserMediaOps.requestPermissionAndPopulateDevices w answer enumerate in
      outcome = loaded
      /\ Platform.media w' = Platform.media w
      /\ Platform.effects w'
         = Platform.effects w
           ++ request :: enumerated
              ++ match loaded with
                 | Js.Returns _ => map Platform.StopMediaTrack tracks
                 | Js.Throws _ => []
                 end).
Proof.
  cbv zeta. split.
  - pose proof (media_populate MediaSystem.Part002 w answer enumerate) as Hm.
    cbn in Hm. unfold UserMediaBOps.requestPermissionAndPopulateDevices in *.
    match goal with |- context [Platform.loadDevices ?en ?w0] =>
      pose proof (loadDevices_outcome en w0) as Ho;
      pose proof (loadDevices_effects en w0) as He;
      destruct (Platform.loadDevices en w0) as [o w'] end.
    cbn [fst snd] in *. rewrite Ho, Hm, He, effects_fold_populated_stop. cbn.
    rewrite <- !app_assoc. repeat split.
  - pose proof (media_populate MediaSystem.TSX w answer enumerate) as Hm.
    cbn in Hm. unfold UserMediaOps.requestPermissionAndPopulateDevices in *.
    match goal with |- context [Platform.loadDevices ?en ?w0] =>
      pose proof (loadDevices_outcome en w0) as Ho;
      pose proof (loadDevices_effects en w0) as He;
      destruct (Platform.loadDevices en w0) as [[u|e] w'] end;
      cbn [fst snd] in *; rewrite effects_fold_populated in He; cbn in He;
      destruct enumerate as [[l|e0]|]; try discriminate Ho;
      rewrite ?effects_fold_stop, He, Hm, <- ?app_assoc; cbn;
      rewrite ?app_nil_r; repeat split; try congruence.
Qed.

(** Two probe tracks and a failing enumeration: part_002 has stopped
    both, context/UserMedia.tsx neither. *)
Example populate_devices_failing_enumeration :
  let answer := Js.Returns [Ex.defaultMic; Ex.camera] in
  let failing := Some (Js.Throws Ex.notFound) in
  let w := Platform.initial Ex.user in
  Platform.effects
    (snd (UserMediaBOps.requestPermissionAndPopulateDevices w answer failing))
  = [Platform.GetUserMediaPreferred "" ""; Platform.StopMediaTrack Ex.defaultMic;
     Platform.StopMediaTrack Ex.camera; Platform.EnumerateDevices]
  /\ Platform.effects
       (snd (UserMediaOps.requestPermissionAndPopulateDevices w answer failing))
     = [Platform.GetUserMediaPreferred "" ""; Platform.EnumerateDevices].
Proof. split; reflexivity. Qed.

(** X18.  [stopActiveCamera] is idempotent: with an active camera it
    stops that track once and clears the slot, and a second call, or a
    call with no active camera, does nothing at all; the microphone side
    is never touched. *)
Theorem stopActiveCamera_idempotent (w : Platform.World) :
  let w' := Platform.stopActiveCamera w in
  Platform.stopActiveCamera w' = w'
  /\ Media.activeCamera (Platform.media w') = None
  /\ Platform.effects w'
     = Platform.effects w
       ++ match Media.activeCamera (Platform.media w) with
          | Some t => [Platform.StopTrack t]
          | None => []
          end
  /\ Media.activeMicrophone (Platform.media w') = Media.activeMicrophone (Platform.media w)
  /\ Media.localAudioAnalyser (Platform.media w')
     = Media.localAudioAnalyser (Platform.media w).
Proof.
  cbv zeta. unfold Platform.stopActiveCamera.
  destruct (Media.activeCamera (Platform.media w)) as [t|] eqn:E; cbn.
  - repeat split.
  - rewrite E, app_nil_r. repeat split.
Qed.

(* ================================================================== *)
(** * Publishing on join, and the join itself *)

(** The tracks an acquisition yields: none when it fails. *)
Definition tracksOf (answer : Js.Outcome (list Sdk.Track)) : list Sdk.Track :=
  match answer with Js.Returns ts => ts | Js.Throws _ => [] end.

(** A call that is an acquisition or a mute, not a publish. *)
Definition isDeviceCall (k : SdkCall) : Prop :=
  match k with GetUserMedia _ | Mute _ => True | _ => False end.

Lemma Forall_isDeviceCall_mutes (b : bool) ts :
  Forall isDeviceCall (if b then map Mute ts else []).
Proof.
  destruct b; [|constructor]. apply Forall_forall. intros k Hk.
  apply in_map_iff in Hk as (t & <- & _). exact I.
Qed.

Lemma getMicrophone_any (getMicrophone : Space.Acquire) c deviceId answer :
  getMicrophone = UserMedia.getMicrophone \/ getMicrophone = UserMediaB.getMicrophone ->
  exists c' log,
    getMicrophone c deviceId answer = (Js.Returns (hd_error (tracksOf answer)), c')
    /\ Media.calls c' = Media.calls c ++ log
    /\ Forall isDeviceCall log
    /\ User.userWantsMicMuted (Media.user c') = User.userWantsMicMuted (Media.user c).
Proof.
  intros Hgm. destruct answer as [ts|e].
  - pose proof (getMicrophone_resolved c deviceId ts getMicrophone Hgm) as H.
    destruct (getMicrophone c deviceId (Js.Returns ts)) as [r c'] eqn:E.
    cbv zeta in H. destruct H as (-> & _ & _ & Hc & _).
    exists c'. eexists. split; [reflexivity|]. split; [exact Hc|]. split.
    + constructor; [exact I | apply Forall_isDeviceCall_mutes].
    + replace c' with (snd (getMicrophone c deviceId (Js.Returns ts))) by now rewrite E.
      destruct Hgm as [->| ->];
        unfold UserMedia.getMicrophone, UserMediaB.getMicrophone, Media.acquire; cbn [snd];
        apply (eachMicrophoneTrack_fold _ ts
                 (Media.call (GetUserMedia (Media.microphoneOptions deviceId)) c)).
  - destruct Hgm as [->| ->];
      unfold UserMedia.getMicrophone, UserMediaB.getMicrophone;
      rewrite acquire_failed; eexists; exists [GetUserMedia (Media.microphoneOptions deviceId)];
      repeat split; repeat constructor.
Qed.

Lemma getCamera_any (getCamera : Space.Acquire) c deviceId answer :
  getCamera = UserMedia.getCamera \/ getCamera = UserMediaB.getCamera ->
  exists c' log,
    getCamera c deviceId answer = (Js.Returns (hd_error (tracksOf answer)), c')
    /\ Media.calls c' = Media.calls c ++ log
    /\ Forall isDeviceCall log
    /\ User.userWantsMicMuted (Media.user c') = User.userWantsMicMuted (Media.user c).
Proof.
  intros Hgc. destruct answer as [ts|e].
  - pose proof (getCamera_resolved c deviceId ts getCamera Hgc) as H.
    destruct (getCamera c deviceId (Js.Returns ts)) as [r c'] eqn:E.
    destruct H as (-> & _ & Hc & _).
    exists c'. eexists. split; [reflexivity|]. split; [exact Hc|]. split.
    + repeat constructor.
    + replace c' with (snd (getCamera c deviceId (Js.Returns ts))) by now rewrite E.
      destruct Hgc as [->| ->];
        unfold UserMedia.getCamera, UserMediaB.getCamera, Media.acquire; cbn [snd];
        apply (eachCameraTrack_fold ts
                 (Media.call (GetUserMedia (Media.cameraOptions deviceId)) c)).
  - destruct Hgc as [->| ->];
      unfold UserMedia.getCamera, UserMediaB.getCamera;
      rewrite acquire_failed; eexists; exists [GetUserMedia (Media.cameraOptions deviceId)];
      repeat split; repeat constructor.
Qed.

(** The providers a session can be given: both functions of one copy. *)
Definition oneCopy (getCamera getMicrophone : Space.Acquire) : Prop :=
  (getCamera = UserMedia.getCamera /\ getMicrophone = UserMedia.getMicrophone)
  \/ (getCamera = UserMediaB.getCamera /\ getMicrophone = UserMediaB.getMicrophone).

(** X19.  [publishForLocalParticipant] publishes real tracks only.  What
    it asks of the SDK is a run of acquisitions and mutes followed by at
    most one [publishTracks], whose argument is never empty and never
    holds [undefined] (a failed acquisition is left out), then at most
    one mute (of the published microphone).  With the camera off or no camera device id, and no
    microphone device id, it asks nothing and resolves. *)
Theorem publishForLocalParticipant_only_tracks
    (getCamera getMicrophone : Space.Acquire) (c : Media.Ctx)
    (cameraAnswer microphoneAnswer published : Js.Outcome (list Sdk.Track)) :
  oneCopy getCamera getMicrophone ->
  let '(outcome, c') :=
    SpaceOps.publishForLocalParticipant getCamera getMicrophone c
      cameraAnswer microphoneAnswer published in
  (exists acquisitions rest,
      Media.calls c' = Media.calls c ++ acquisitions ++ rest
      /\ Forall isDeviceCall acquisitions
      /\ (rest = []
          \/ exists tracks muting,
               tracks <> []
               /\ rest = PublishTracks (map Some tracks) :: muting
               /\ (muting = [] \/ exists track, muting = [Mute track])))
  /\ ((User.cameraOff (Media.user c) = true \/ User.cameraDeviceId (Media.user c) = "") ->
      User.microphoneDeviceId (Media.user c) = "" ->
      outcome = Js.Returns tt /\ c' = c).
Proof.
  intros Hcopy.
  assert (Hgc : getCamera = UserMedia.getCamera \/ getCamera = UserMediaB.getCamera)
    by (destruct Hcopy as [[-> _]|[-> _]]; auto).
  assert (Hgm : getMicrophone = UserMedia.getMicrophone
                \/ getMicrophone = UserMediaB.getMicrophone)
    by (destruct Hcopy as [[_ ->]|[_ ->]]; auto).
  unfold SpaceOps.publishForLocalParticipant.
  set (u := Media.user c).
  (* the camera step *)
  assert (Hcam : exists cameraTracks c1 log1,
             (if Js.truthyString (Some (User.cameraDeviceId u)) && negb (User.cameraOff u)
              then match getCamera c (User.cameraDeviceId u) cameraAnswer with
                   | (Js.Returns cameraTrack, c0) =>
                       (Js.Returns (SpaceOps.toList cameraTrack), c0)
                   | (Js.Throws e, c0) => (Js.Throws e, c0)
                   end
              else (Js.Returns [], c))
             = (Js.Returns cameraTracks, c1)
             /\ Media.calls c1 = Media.calls c ++ log1 /\ Forall isDeviceCall log1
             /\ ((User.cameraOff u = true \/ User.cameraDeviceId u = "") ->
                 cameraTracks = [] /\ c1 = c)).
  { destruct (Js.truthyString (Some (User.cameraDeviceId u)) && negb (User.cameraOff u)) eqn:Go.
    - destruct (getCamera_any getCamera c (User.cameraDeviceId u) cameraAnswer Hgc)
        as (c1 & log1 & -> & Hc & Hlog & _).
      eexists _, c1, log1. repeat split; try assumption;
        destruct H as [Hoff|Hid]; apply andb_true_iff in Go as [G1 G2];
        try (rewrite Hoff in G2; discriminate);
        try (rewrite Hid in G1; discriminate).
    - exists [], c, []. rewrite app_nil_r. repeat split. constructor. }
  destruct Hcam as (cameraTracks & c1 & log1 & -> & Hc1 & Hlog1 & Hskip1).
  (* the microphone step *)
  assert (Hmic : exists microphoneTracks c2 log2,
             (if Js.truthyString (Some (User.microphoneDeviceId u))
              then match getMicrophone c1 (User.microphoneDeviceId u) microphoneAnswer with
                   | (Js.Returns microphoneTrack, c0) =>
                       (Js.Returns (SpaceOps.toList microphoneTrack), c0)
                   | (Js.Throws e, c0) => (Js.Throws e, c0)
                   end
              else (Js.Returns [], c1))
             = (Js.Returns microphoneTracks, c2)
             /\ Media.calls c2 = Media.calls c1 ++ log2 /\ Forall isDeviceCall log2
             /\ (User.microphoneDeviceId u = "" -> microphoneTracks = [] /\ c2 = c1)).
  { destruct (Js.truthyString (Some (User.microphoneDeviceId u))) eqn:Go.
    - destruct (getMicrophone_any getMicrophone c1 (User.microphoneDeviceId u)
                  microphoneAnswer Hgm) as (c2 & log2 & -> & Hc & Hlog & _).
      eexists _, c2, log2. repeat split; try assumption;
        rewrite H in Go; discriminate.
    - exists [], c1, []. rewrite app_nil_r. repeat split. constructor. }
  destruct Hmic as (microphoneTracks & c2 & log2 & -> & Hc2 & Hlog2 & Hskip2).
  assert (Hpre : Media.calls c2 = Media.calls c ++ (log1 ++ log2))
    by (now rewrite Hc2, Hc1, <- app_assoc).
  assert (Hdev : Forall isDeviceCall (log1 ++ log2)) by (apply Forall_app; auto).
  destruct (cameraTracks ++ microphoneTracks) as [|t ts] eqn:Tracks.
  - split.
    + exists (log1 ++ log2), []. rewrite app_nil_r. auto.
    + intros H1 H2. destruct (Hskip1 H1) as [_ ->]. destruct (Hskip2 H2) as [_ ->]. auto.
  - assert (Hnone : (User.cameraOff u = true \/ User.cameraDeviceId u = "") ->
                    User.microphoneDeviceId u = "" -> False).
    { intros H1 H2. destruct (Hskip1 H1) as [-> _]. destruct (Hskip2 H2) as [-> _].
      discriminate Tracks. }
    destruct published as [publishedTracks|e].
    + destruct (Js.find _ publishedTracks) as [pm|]; split;
        try (intros H1 H2; destruct (Hnone H1 H2)).
      * exists (log1 ++ log2),
          (PublishTracks (map Some (t :: ts))
           :: (if User.userWantsMicMuted u then [Mute pm] else [])).
        split; [|split; [exact Hdev|]].
        -- unfold Media.when. destruct (User.userWantsMicMuted u); cbn;
             rewrite Hpre, <- ?app_assoc; reflexivity.
        -- right. exists (t :: ts), (if User.userWantsMicMuted u then [Mute pm] else []).
           split; [discriminate|]. split; [reflexivity|].
           destruct (User.userWantsMicMuted u); eauto.
      * exists (log1 ++ log2), [PublishTracks (map Some (t :: ts))].
        cbn. rewrite Hpre, <- app_assoc. repeat split; [exact Hdev|].
        right. exists (t :: ts), []. repeat split; [discriminate | now left].
    + split; [|intros H1 H2; destruct (Hnone H1 H2)].
      exists (log1 ++ log2), [PublishTracks (map Some (t :: ts))].
      cbn. rewrite Hpre, <- app_assoc. repeat split; [exact Hdev|].
      right. exists (t :: ts), []. repeat split; [discriminate | now left].
Qed.

Lemma publishForLocalParticipant_witness_copy :
  oneCopy UserMedia.getCamera UserMedia.getMicrophone.
Proof. left. split; reflexivity. Qed.

(** Preset devices: a camera and a microphone chosen, microphone to be
    muted. *)
Definition presetBoth : Media.Ctx :=
  {| Media.user :=
       {| User.cameraDeviceId := "cam-1"; User.microphoneDeviceId := "usb-1";
          User.userWantsMicMuted := true; User.cameraOff := false |};
     Media.media := Media.initial; Media.calls := [] |}.

(** Preset devices: a microphone only. *)
Definition presetMicrophone : Media.Ctx :=
  {| Media.user :=
       {| User.cameraDeviceId := ""; User.microphoneDeviceId := "usb-1";
          User.userWantsMicMuted := false; User.cameraOff := false |};
     Media.media := Media.initial; Media.calls := [] |}.

Lemma publishForLocalParticipant_only_tracks_witness :
  let '(outcome, c') :=
    SpaceOps.publishForLocalParticipant UserMedia.getCamera UserMedia.getMicrophone
      presetBoth (Js.Throws Ex.notFound) (Js.Returns [Ex.usbMic]) (Js.Returns [Ex.usbMic]) in
  exists acquisitions rest,
    Media.calls c' = Media.calls presetBoth ++ acquisitions ++ rest
    /\ Forall isDeviceCall acquisitions
    /\ (rest = []
        \/ exists tracks muting,
             tracks <> []
             /\ rest = PublishTracks (map Some tracks) :: muting
             /\ (muting = [] \/ exists track, muting = [Mute track])).
Proof.
  pose proof (publishForLocalParticipant_only_tracks UserMedia.getCamera
                UserMedia.getMicrophone presetBoth (Js.Throws Ex.notFound)
                (Js.Returns [Ex.usbMic]) (Js.Returns [Ex.usbMic])
                publishForLocalParticipant_witness_copy) as H.
  cbn in H |- *. exact (proj1 H).
Defined.

(** The same run, read off: the failed camera is left out, the
    microphone is published and muted twice (on acquisition and after
    publishing). *)
Example publishForLocalParticipant_run :
  Media.calls
    (snd (SpaceOps.publishForLocalParticipant UserMedia.getCamera UserMedia.getMicrophone
            presetBoth (Js.Throws Ex.notFound) (Js.Returns [Ex.usbMic])
            (Js.Returns [Ex.usbMic])))
  = [GetUserMedia (Media.cameraOptions "cam-1");
     GetUserMedia (Media.microphoneOptions "usb-1"); Mute Ex.usbMic;
     PublishTracks [Some Ex.usbMic]; Mute Ex.usbMic].
Proof. reflexivity. Qed.

(** Only a rejected [publishTracks] makes [publishForLocalParticipant]
    reject: a failed acquisition does not. *)
Lemma publishForLocalParticipant_throws getCamera getMicrophone c
    cameraAnswer microphoneAnswer published e :
  oneCopy getCamera getMicrophone ->
  fst (SpaceOps.publishForLocalParticipant getCamera getMicrophone c
         cameraAnswer microphoneAnswer published) = Js.Throws e ->
  published = Js.Throws e.
Proof.
  intros Hcopy.
  assert (Hgc : getCamera = UserMedia.getCamera \/ getCamera = UserMediaB.getCamera)
    by (destruct Hcopy as [[-> _]|[-> _]]; auto).
  assert (Hgm : getMicrophone = UserMedia.getMicrophone
                \/ getMicrophone = UserMediaB.getMicrophone)
    by (destruct Hcopy as [[_ ->]|[_ ->]]; auto).
  unfold SpaceOps.publishForLocalParticipant.
  destruct (_ && _);
    [destruct (getCamera_any getCamera c (User.cameraDeviceId (Media.user c))
                 cameraAnswer Hgc) as (c1 & l1 & -> & _)|];
    (destruct (Js.truthyString (Some (User.microphoneDeviceId (Media.user c))));
     [match goal with |- context [getMicrophone ?c0 ?d ?a] =>
        destruct (getMicrophone_any getMicrophone c0 d a Hgm) as (c2 & l2 & -> & _) end|]);
    (destruct (_ ++ _); [cbn; discriminate|]);
    (destruct published as [pts|e']; [destruct (Js.find _ pts)|]);
    cbn; congruence.
Qed.

(** X20.  How the final step of [joinSpace] ends.  The join fails, with
    the error's message as [joinError] and joined and broadcasting false,
    only when [join()] throws or the [publishTracks] of the preset
    devices rejects: then the participant the SDK returned is not stored.
    A failed device acquisition does not fail the join.  When the join
    succeeds the local participant is stored, [isJoined] is true,
    broadcasting is the space's, and [joinError] is left as it was: an
    error of an earlier attempt is not cleared.  Either way the roster,
    the screen-share slot and the space handle are untouched. *)
Theorem joinSpace_outcomes
    (getCamera getMicrophone : Space.Acquire) (_space : Space.Handle)
    (joined : Js.Outcome LocalParticipant.t)
    (cameraAnswer microphoneAnswer published : Js.Outcome (list Sdk.Track))
    (s : Space.State) (c : Media.Ctx) :
  oneCopy getCamera getMicrophone ->
  let s' := fst (SpaceOps.joinSpaceTry getCamera getMicrophone _space joined
                   cameraAnswer microphoneAnswer published s c) in
  (Space.remoteParticipants s' = Space.remoteParticipants s
   /\ Space.screenShareTrack s' = Space.screenShareTrack s
   /\ Space.space s' = Space.space s)
  /\ ((Space.isJoined s' = true
       /\ (exists lp, joined = Js.Returns lp /\ Space.localParticipant s' = Some lp)
       /\ Space.isBroadcasting s' = Space.broadcasting _space
       /\ Space.joinError s' = Space.joinError s)
      \/ (Space.isJoined s' = false
          /\ Space.isBroadcasting s' = false
          /\ Space.localParticipant s' = Space.localParticipant s
          /\ exists e, Space.joinError s' = Some (Js.message e)
                       /\ (joined = Js.Throws e \/ published = Js.Throws e))).
Proof.
  intros Hcopy. cbv zeta. unfold SpaceOps.joinSpaceTry.
  destruct joined as [lp|e]; cbn.
  - destruct (SpaceOps.publishForLocalParticipant _ _ _ _ _ _) as [[u|e] c'] eqn:P; cbn.
    + split; [repeat split|]. left. repeat split. eauto.
    + split; [repeat split|]. right. repeat split. exists e. split; [reflexivity|].
      right. apply (publishForLocalParticipant_throws getCamera getMicrophone c
                      cameraAnswer microphoneAnswer published e Hcopy).
      now rewrite P.
  - split; [repeat split|]. right. repeat split. eauto.
Qed.

Lemma joinSpace_outcomes_witness :
  let s' := fst (SpaceOps.joinSpaceTry UserMedia.getCamera UserMedia.getMicrophone
                   Ex.theSpace (Js.Returns Ex.me) (Js.Returns [])
                   (Js.Returns [Ex.usbMic]) (Js.Throws Ex.notFound)
                   Space.initial presetMicrophone) in
  Space.isJoined s' = false /\ Space.localParticipant s' = None
  /\ Space.joinError s' = Some "Requested device not found".
Proof.
  cbv zeta.
  pose proof (joinSpace_outcomes UserMedia.getCamera UserMedia.getMicrophone Ex.theSpace
                (Js.Returns Ex.me) (Js.Returns []) (Js.Returns [Ex.usbMic])
                (Js.Throws Ex.notFound) Space.initial presetMicrophone
                publishForLocalParticipant_witness_copy) as [_ [H|H]].
  - destruct H as (H & _). cbn in H. discriminate H.
  - cbn in H |- *. repeat split.
Defined.

(* ================================================================== *)
(** * Sharing the screen *)

(** X21.  [startScreenShare] with a local participant.  A failure of
    [getDisplayMedia] never reaches the caller: the call resolves with
    nothing, and the failure's message becomes [screenShareError] unless
    it contains [Permission denied], in which case nothing is recorded.
    An answer without a screen-share track is recorded as
    [No screen share track found.].  A rejection of [publishTracks], in
    contrast, is the caller's: it is not recorded.  On success the call
    resolves with the first published track.  In no case does the call
    itself write the screen-share slot or clear an earlier error. *)
Theorem startScreenShare_outcomes
    (s : Space.State) (lp : LocalParticipant.t)
    (display : Js.Outcome (option (list Sdk.Track)))
    (published : Js.Outcome (list Sdk.Track)) :
  Space.localParticipant s = Some lp ->
  let '(outcome, s', log) := SpaceOps.startScreenShare s display published in
  (Space.screenShareTrack s' = Space.screenShareTrack s
   /\ Space.participantScreenSharing s' = Space.participantScreenSharing s
   /\ Space.remoteParticipants s' = Space.remoteParticipants s)
  /\ match display with
     | Js.Throws err =>
         outcome = Js.Returns None
         /\ log = [Platform.GetDisplayMedia]
         /\ Space.screenShareError s'
            = if SpaceOps.includes "Permission denied" (Js.message err)
              then Space.screenShareError s
              else Some (Js.message err)
     | Js.Returns screenStreams =>
         match Js.find Space.isScreenshare
                 (match screenStreams with Some l => l | None => [] end) with
         | None =>
             outcome = Js.Returns None
             /\ log = [Platform.GetDisplayMedia]
             /\ Space.screenShareError s' = Some "No screen share track found."
         | Some screenStream =>
             log = [Platform.GetDisplayMedia;
                    Platform.Sdk (PublishTracks [Some screenStream])]
             /\ Space.screenShareError s' = Space.screenShareError s
             /\ outcome = match published with
                          | Js.Throws e => Js.Throws e
                          | Js.Returns tracks => Js.Returns (hd_error tracks)
                          end
         end
     end.
Proof.
  intros Hlp. unfold SpaceOps.startScreenShare. rewrite Hlp.
  destruct display as [[l|]|err].
  - destruct (Js.find Space.isScreenshare l) as [screenStream|].
    + destruct published as [tracks|e]; cbn; rewrite ?Hlp; repeat split.
    + cbn. repeat split.
  - cbn. repeat split.
  - unfold SpaceOps.catchScreenShare.
    destruct (SpaceOps.includes "Permission denied" (Js.message err)); cbn; repeat split.
Qed.

Lemma startScreenShare_outcomes_witness :
  let cancelled :=
    {| Js.name := "NotAllowedError"; Js.message := "Permission denied by user";
       Js.isDOMException := true |} in
  let '(outcome, s', _) :=
    SpaceOps.startScreenShare Ex.joinedAlone (Js.Throws cancelled) (Js.Returns []) in
  outcome = Js.Returns None /\ Space.screenShareError s' = None.
Proof.
  cbv zeta.
  pose proof (startScreenShare_outcomes Ex.joinedAlone Ex.me
                (Js.Throws {| Js.name := "NotAllowedError";
                              Js.message := "Permission denied by user";
                              Js.isDOMException := true |})
                (Js.Returns []) eq_refl) as H.
  cbn in H |- *. destruct H as (_ & H1 & _ & H3). split; assumption.
Defined.

(** A failure of another kind is recorded. *)
Example startScreenShare_records_failure :
  let '(outcome, s', _) :=
    SpaceOps.startScreenShare Ex.joinedAlone (Js.Throws Ex.notFound) (Js.Returns []) in
  outcome = Js.Returns None
  /\ Space.screenShareError s' = Some "Requested device not found".
Proof. split; reflexivity. Qed.

(** X22.  Starting and stopping a share compose through the SDK's
    events.  Once the published event for the local participant's own
    screen-share track (with media) has been handled, the share counts as
    local and [stopScreenShare] asks the SDK to unpublish exactly that
    track; once the unpublish event has been handled, [stopScreenShare]
    asks nothing.  While the slot holds a track that is not a local track
    (a remote participant's share) [stopScreenShare] asks nothing. *)
Theorem screen_share_stop_composes
    (s : Space.State) (lp : LocalParticipant.t) (track : Sdk.Track) :
  Space.localParticipant s = Some lp ->
  Sdk.source track = Sdk.Screenshare ->
  Sdk.hasMedia track = true ->
  let shared := Space.handleParticipantTrackPublished (Local lp) track s in
  let ended := Space.handleParticipantTrackUnpublished (Local lp) track shared in
  (Sdk.isLocalTrack track = true ->
     Space.isLocalScreenShare shared = true
     /\ SpaceOps.stopScreenShare shared = [UnpublishTracks [track]])
  /\ (Sdk.isLocalTrack track = false -> SpaceOps.stopScreenShare shared = [])
  /\ SpaceOps.stopScreenShare ended = []
  /\ Space.isScreenShareActive ended = false.
Proof.
  intros Hlp Hsrc Hmedia. cbv zeta.
  unfold Space.handleParticipantTrackPublished, Space.handleParticipantTrackUnpublished,
    Space.isScreenshare.
  rewrite Hsrc, Hmedia. cbn.
  unfold SpaceOps.stopScreenShare. cbn. rewrite Hlp.
  split; [|split; [|split]]; try reflexivity.
  - intros ->. split; reflexivity.
  - intros ->. reflexivity.
Qed.

Lemma screen_share_stop_composes_witness :
  let mine :=
    {| Sdk.trackObj := 11; Sdk.kind := Sdk.Video; Sdk.source := Sdk.Screenshare;
       Sdk.deviceId := None; Sdk.hasMedia := true; Sdk.isLocalTrack := true |} in
  SpaceOps.stopScreenShare
    (Space.handleParticipantTrackPublished (Local Ex.me) mine Ex.joinedAlone)
  = [UnpublishTracks [mine]].
Proof.
  cbv zeta.
  exact (proj2 (proj1 (screen_share_stop_composes Ex.joinedAlone Ex.me
                         {| Sdk.trackObj := 11; Sdk.kind := Sdk.Video;
                            Sdk.source := Sdk.Screenshare; Sdk.deviceId := None;
                            Sdk.hasMedia := true; Sdk.isLocalTrack := true |}
                         eq_refl eq_refl eq_refl) eq_refl)).
Defined.

(* ================================================================== *)
(** * publishMicrophone acquires before it checks *)

(** X23.  [publishMicrophone] runs [getMicrophone] before the duplicate
    check, so a call that fails with [AlreadyPublished] has already asked
    for the device and switched the active microphone: when the
    acquisition resolved, the active microphone is the last microphone
    track of the answer although nothing was published. *)
Theorem publishMicrophone_acquires_first
    (getMicrophone : Space.Acquire) (s : Space.State) (c : Media.Ctx)
    (deviceId : string) (tracks : list Sdk.Track) (publishAnswer : option Js.JsError)
    (lp : LocalParticipant.t) (t : Sdk.Track) :
  getMicrophone = UserMedia.getMicrophone \/ getMicrophone = UserMediaB.getMicrophone ->
  Space.localParticipant s = Some lp ->
  In t (LocalParticipant.getAudioTracks lp) ->
  Space.isMicrophoneOf deviceId t = true ->
  let '(outcome, s', c') :=
    Space.publishMicrophone getMicrophone s c deviceId (Js.Returns tracks) publishAnswer in
  outcome = Js.Throws AlreadyPublished
  /\ s' = s
  /\ Media.activeMicrophone (Media.media c')
     = lastOr (Media.activeMicrophone (Media.media c)) (filter isMicrophone tracks)
  /\ (exists mutes,
        Media.calls c'
        = Media.calls c ++ GetUserMedia (Media.microphoneOptions deviceId) :: mutes
        /\ Forall isDeviceCall mutes).
Proof.
  intros Hgm Hlp Hin Hmic.
  rewrite (publishMicrophone_duplicate _ _ _ _ _ _ lp t Hgm Hlp Hin Hmic).
  pose proof (getMicrophone_resolved c deviceId tracks getMicrophone Hgm) as H.
  destruct (getMicrophone c deviceId (Js.Returns tracks)) as [r c'].
  cbv zeta in H. destruct H as (_ & Hm & _ & Hc & _). cbn [snd].
  repeat split; [exact Hm|]. eexists. split; [exact Hc|].
  apply Forall_isDeviceCall_mutes.
Qed.

Lemma publishMicrophone_acquires_first_witness :
  let published :=
    Space.afterPublish [Some Ex.usbMic] Ex.joinedAlone in
  let again :=
    {| Sdk.trackObj := 5; Sdk.kind := Sdk.Audio; Sdk.source := Sdk.Microphone;
       Sdk.deviceId := Some "usb-1"; Sdk.hasMedia := true; Sdk.isLocalTrack := true |} in
  let '(outcome, _, c') :=
    Space.publishMicrophone UserMedia.getMicrophone published Ex.ctx "usb-1"
      (Js.Returns [again]) None in
  outcome = Js.Throws AlreadyPublished
  /\ Media.activeMicrophone (Media.media c') = Some again.
Proof.
  cbv zeta.
  pose proof (publishMicrophone_acquires_first UserMedia.getMicrophone
                (Space.afterPublish [Some Ex.usbMic] Ex.joinedAlone) Ex.ctx "usb-1"
                [{| Sdk.trackObj := 5; Sdk.kind := Sdk.Audio; Sdk.source := Sdk.Microphone;
                    Sdk.deviceId := Some "usb-1"; Sdk.hasMedia := true;
                    Sdk.isLocalTrack := true |}] None
                (LocalParticipant.published [Ex.usbMic] Ex.me) Ex.usbMic
                (or_introl eq_refl) eq_refl (or_introl eq_refl) eq_refl) as H.
  cbn in H |- *. destruct H as (H1 & _ & H3 & _). split; assumption.
Defined.

(* ================================================================== *)
(** * Invariants of the session provider *)

(** The joined flag comes with a local participant; the screen-share slot
    holds a track and its owner together, and the track is a screen
    share; a stored expiry is never 0. *)
Definition sessionInvariant (s : Space.State) : Prop :=
  (Space.isJoined s = true -> Space.localParticipant s <> None)
  /\ (Space.screenShareTrack s = None <-> Space.participantScreenSharing s = None)
  /\ (forall t, Space.screenShareTrack s = Some t -> Sdk.source t = Sdk.Screenshare)
  /\ Space.spaceEndsAt s <> Some 0.

Lemma isScreenshare_source t :
  Space.isScreenshare t = true -> Sdk.source t = Sdk.Screenshare.
Proof. unfold Space.isScreenshare. now destruct (Sdk.source t). Qed.

Lemma sessionInvariant_setup p t s :
  Space.isScreenshare t = true ->
  sessionInvariant s -> sessionInvariant (Space.setupScreenShare p t s).
Proof.
  intros Ht (J & _ & _ & E). repeat split; cbn; try discriminate; try assumption.
  intros t' [= <-]. now apply isScreenshare_source.
Qed.

Lemma sessionInvariant_tearDown s :
  sessionInvariant s -> sessionInvariant (Space.tearDownScreenShare s).
Proof.
  intros (J & _ & _ & E). repeat split; cbn; try discriminate; assumption.
Qed.

Lemma sessionInvariant_roster f s :
  sessionInvariant s -> sessionInvariant (Space.setRemoteParticipants f s).
Proof. intros H. exact H. Qed.

Section SessionInvariant.

Variable MAX_PARTICIPANTS_PER_PAGE : Z.

Lemma on_sessionInvariant e s :
  sessionInvariant s -> sessionInvariant (Space.on MAX_PARTICIPANTS_PER_PAGE e s).
Proof.
  intros H.
  destruct e as [p|p|changes|b|p t|sub p t|p t|sub p t|p]; cbn;
    try exact H.
  - unfold Space.handleParticipantTrackPublished.
    destruct (Space.isScreenshare t) eqn:Ht; [|exact H].
    destruct (Sdk.hasMedia t); [|exact H]. now apply sessionInvariant_setup.
  - unfold Space.handleParticipantTrackSubscribed.
    assert (H' : sessionInvariant
                   match p with
                   | Remote r => Space.reorderRemoteParticipantsBySubscription sub r s
                   | Local _ => s
                   end) by (destruct p; exact H).
    destruct (Space.isScreenshare t) eqn:Ht; [|exact H'].
    destruct (Sdk.hasMedia t); [|exact H']. now apply sessionInvariant_setup.
  - unfold Space.handleParticipantTrackUnpublished.
    destruct (Space.isScreenshare t); [|exact H]. now apply sessionInvariant_tearDown.
  - unfold Space.handleParticipantTrackUnsubscribed.
    assert (H' : sessionInvariant
                   match p with
                   | Remote r => Space.reorderRemoteParticipantsBySubscription sub r s
                   | Local _ => s
                   end) by (destruct p; exact H).
    destruct (Space.isScreenshare t); [|exact H']. now apply sessionInvariant_tearDown.
  - destruct p as [l|r]; [|exact H].
    destruct H as (J & S1 & S2 & E). repeat split; cbn; try assumption; try apply S1.
    intros Hj. specialize (J Hj). destruct (Space.localParticipant s); [discriminate|].
    now destruct J.
Qed.

Lemma step_sessionInvariant a s :
  sessionInvariant s -> sessionInvariant (Space.step MAX_PARTICIPANTS_PER_PAGE s a).
Proof.
  intros H. destruct a as [endsAt constructed|sp answer|e|ra la|ts]; cbn.
  - unfold Space.joinSpaceBegin. destruct constructed as [sp|err]; [|exact H].
    destruct endsAt as [n|]; [|exact H].
    destruct (Z.eqb_spec n 0); [exact H|].
    destruct H as (J & S1 & S2 & E). repeat split; cbn; try assumption; try apply S1.
    congruence.
  - unfold Space.joinSpaceSettle. destruct H as (J & S1 & S2 & E).
    destruct answer as [lp|err]; repeat split; cbn; try assumption; try apply S1;
      discriminate.
  - now apply on_sessionInvariant.
  - unfold Space.leaveSpace. destruct (Space.leaveSpaceTry s ra la).
    destruct H as (J & S1 & S2 & E). repeat split; cbn; try assumption; try apply S1;
      discriminate.
  - destruct H as (J & S1 & S2 & E). repeat split; cbn; try assumption; try apply S1.
    intros Hj. specialize (J Hj). destruct (Space.localParticipant s); [discriminate|].
    now destruct J.
Qed.

End SessionInvariant.

(** X24.  In every state the session provider reaches: when [isJoined]
    is true a local participant is held (so publishing does not fail for
    want of one, and [participantCount] is at least 1); the screen-share
    track and its owner are set and cleared together, and a held track is
    a screen-share track; and the stored expiry is never 0. *)
Theorem session_invariants (MAX_PARTICIPANTS_PER_PAGE : Z) (s : Space.State) :
  Space.reachable MAX_PARTICIPANTS_PER_PAGE s ->
  sessionInvariant s
  /\ (Space.isJoined s = true -> (1 <= Space.participantCount s)%nat)
  /\ (Space.isScreenShareActive s = true
      <-> Space.screenShareParticipantConnectionId s <> None).
Proof.
  intros (actions & ->).
  assert (G : forall s0, sessionInvariant s0 ->
                sessionInvariant (Space.run MAX_PARTICIPANTS_PER_PAGE s0 actions)).
  { unfold Space.run. induction actions as [|a r IH]; intros s0 H0; cbn; [exact H0|].
    apply IH. now apply step_sessionInvariant. }
  assert (I0 : sessionInvariant Space.initial).
  { repeat split; cbn; try discriminate. }
  specialize (G _ I0). split; [exact G|].
  destruct G as (J & S1 & _ & _). split.
  - intros Hj. specialize (J Hj). unfold Space.participantCount.
    destruct (Space.localParticipant _); [lia | now destruct J].
  - unfold Space.isScreenShareActive, Space.screenShareParticipantConnectionId.
    destruct (Space.screenShareTrack _) as [t|] eqn:T;
      destruct (Space.participantScreenSharing _) as [p|] eqn:P; cbn;
      split; try discriminate; try reflexivity; intros H.
    + destruct S1 as [_ S1]. specialize (S1 eq_refl). discriminate.
    + destruct S1 as [S1 _]. specialize (S1 eq_refl). discriminate.
    + now destruct H.
Qed.

Lemma session_invariants_witness :
  Space.screenShareTrack Ex.watching = None
  <-> Space.participantScreenSharing Ex.watching = None.
Proof.
  refine (proj1 (proj2 (proj1 (session_invariants 6 Ex.watching _)))).
  exists ([Space.JoinBegin (Some 1700000000) (Js.Returns Ex.theSpace);
           Space.JoinSettle Ex.theSpace (Js.Returns Ex.me)]
          ++ [Space.Deliver (Space.ParticipantJoined Ex.p2);
              Space.Deliver (Space.ParticipantTrackPublished (Remote Ex.p2) Ex.screen)]).
  reflexivity.
Defined.

(* ================================================================== *)
(** * Active-speaker promotion: the roster an event leaves *)


Example active_speaker_batch_final_roster_run :
  ids (Space.remoteParticipants
         (Space.handleActiveSpeakerChanged 3 [Ex.speaks Ex.p5; Ex.speaks Ex.p2] Ex.crowd))
  = ["p2"; "p5"; "p1"; "p3"; "p4"]
  /\ ids (Space.remoteParticipants
            (Space.handleActiveSpeakerChanged 3 [Ex.speaks Ex.p2; Ex.speaks Ex.p5] Ex.crowd))
     = ["p5"; "p1"; "p2"; "p3"; "p4"].
Proof. split; reflexivity. Qed.

(* ================================================================== *)
(** * The microphone level in binary64 *)

Section FloatFacts.








End FloatFacts.

Section LevelOfConstantBuffer.

Variable log10 : float -> float.
Variable pow : float -> float -> float.
Variable c : float.






End LevelOfConstantBuffer.




(** unnamed/part_002 at the same buffer: there the peak is the square
    rounded to binary32, and the levels differ as well. *)
Example microphone_level_part002_differs :
  match MicrophoneLevel.getActiveMicrophoneLevelB MicrophoneLevel.increasing
          MicrophoneLevel.powExact (MicrophoneLevel.steady (1 + 0x1p-23)) Ex.listening with
  | Some level =>
      PrimFloat.eqb (MicrophoneLevel.avgDb level) (MicrophoneLevel.peakDb level)
  | None => true
  end = false.
Proof. vm_compute. reflexivity. Qed.

(** The same buffer whatever [log10] is: the average level is [10 * log10]
    of 1 + 2^-22 + 2^-50, the peak level [10 * log10] of
    1 + 2^-22 + 2^-46, the exact square.  The two arguments are 60 units
    in the last place apart. *)
Example microphone_level_arguments (log10 : float -> float) :
  MicrophoneLevel.getActiveMicrophoneLevel log10 MicrophoneLevel.powExact
    (MicrophoneLevel.steady (1 + 0x1p-23)) Ex.listening
  = Some {| MicrophoneLevel.avgDb := PrimFloat.mul 10 (log10 0x1.0000040000004p0%float);
            MicrophoneLevel.peakDb := PrimFloat.mul 10 (log10 0x1.0000040000040p0%float) |}
  /\ Prim2SF 0x1.0000040000004p0%float = S754_finite false 4503600701112324 (-52)
  /\ Prim2SF 0x1.0000040000040p0%float = S754_finite false 4503600701112384 (-52).
Proof. repeat split; vm_compute; reflexivity. Qed.
